(** * Rb-87 magneto-optical trap model: a shallow embedding of
      [server/rb87_mot_model.py] and the properties of its simulation core.

    Conventions of the embedding.
    - A Python/NumPy float is an ideal real number ([R]); the two places
      where the program manufactures a NaN on purpose (an unpopulated level,
      a population fraction 0/0) use [float64], a real or [NaN].
    - NumPy arrays are mutable objects: they live in a store ([world]) and
      the program handles references ([loc]) to them, so in-place updates
      ([+=], [levels[i] = ...]) and aliasing are visible.
    - The global NumPy random generator is a stream of raw draws and a
      cursor; every [np.random.*] call consumes draws in program order.
    - Progress printing, timing and plotting are not modelled. *)

From Stdlib Require Import Reals Lra Lia ZArith List Bool.
From stdpp Require Import base list.
Import ListNotations.

Open Scope R_scope.

(** ** Physical parameters (module-level constants of the script) *)

(** [scipy.constants.k], [hbar] and [pi] (CODATA 2018 values). *)
Definition k : R := 1.380649e-23.
Definition hbar : R := 6.62607015e-34 / (2 * PI).
Definition pi : R := PI.

Definition mass_Rb : R := 87 * 1.66e-27.
Definition wavelength : R := 780.241e-9.
Definition k_L : R := 2 * pi / wavelength.
Definition Gamma : R := 2 * pi * 6.07e6.
Definition P_laser : R := 8e-3 / 6.
Definition beam_diameter : R := 9e-3.
Definition I_s : R := 25.
Definition T0 : R := 360.
Definition beam_radius : R := beam_diameter / 2.

Definition wavelength_fluctuation : R := 5e-8.
Definition power_fluctuation : R := 0.1.
Definition magnetic_fluctuation : R := 0.075.

Definition repumper_intensity : R := 1e-3.
Definition repumper_wavelength : R := 780.244e-9.
Definition repumper_effect : R := 0.6.

(** The dictionary [transition_probabilities]; a Python dict iterates in
    insertion order, so it is an association list in source order. *)
Definition transition_probabilities : list ((Z * Z) * R) :=
  [ ((0, 1)%Z, 5e-21); ((1, 2)%Z, 0.6); ((2, 3)%Z, 5e-21);
    ((1, 0)%Z, 0.2);   ((2, 1)%Z, 0.8); ((3, 2)%Z, 5e-21) ].

(** ** Values, store and random source *)

(** A float that may be the NaN the program produces explicitly. *)
Inductive float64 : Type :=
| Num (x : R)
| NaN.

Definition loc := nat.

Record world : Type := mkWorld {
  farrs : list (list R);   (* float arrays, addressed by position *)
  iarrs : list (list Z);   (* integer arrays *)
  source : nat -> R;       (* the raw draws of the generator *)
  rng : nat                (* how many draws were consumed *)
}.

(** Boolean comparison of floats. *)
Definition Rltb (x y : R) : bool := if Rlt_dec x y then true else false.

#[global] Instance R_inhabited : Inhabited R := populate 0.
#[global] Instance float64_inhabited : Inhabited float64 := populate NaN.

(** *** A state monad over the world *)

Definition St (A : Type) : Type := world -> A * world.

Definition ret {A} (a : A) : St A := fun w => (a, w).

Definition bind {A B} (m : St A) (f : A -> St B) : St B :=
  fun w => let '(a, w') := m w in f a w'.

Notation "'let*' x ':=' m 'in' f" := (bind m (fun x => f))
  (at level 10, x name, m at level 200, f at level 200).

Fixpoint replicateM {A} (n : nat) (m : St A) : St (list A) :=
  match n with
  | O => ret []
  | S n' => let* a := m in let* l := replicateM n' m in ret (a :: l)
  end.

Fixpoint mapM {A B} (f : A -> St B) (l : list A) : St (list B) :=
  match l with
  | [] => ret []
  | a :: l' => let* b := f a in let* bs := mapM f l' in ret (b :: bs)
  end.

Fixpoint for_each {A} (l : list A) (body : A -> St unit) : St unit :=
  match l with
  | [] => ret tt
  | a :: l' => let* _ := body a in for_each l' body
  end.

(** *** The generator *)

Definition draw : St R :=
  fun w => (source w (rng w),
            mkWorld (farrs w) (iarrs w) (source w) (S (rng w))).

(** [np.random.normal(loc, scale)]: location plus scale times a standard
    normal deviate. *)
Definition np_random_normal (mu sigma : R) : St R :=
  let* z := draw in ret (mu + sigma * z).

(** [np.random.rand()]: a uniform deviate of [0, 1). *)
Definition np_random_rand : St R := draw.

Definition np_random_rand_n (n : nat) : St (list R) :=
  replicateM n np_random_rand.

Definition np_random_normal_n (mu sigma : R) (n : nat) : St (list R) :=
  replicateM n (np_random_normal mu sigma).

Definition np_random_uniform_n (low high : R) (n : nat) : St (list R) :=
  replicateM n (let* u := draw in ret (low + (high - low) * u)).

(** [np.random.choice([0,1,2,3], p=[0.94, 0.05, 0.009, 0.001])]: the index
    of a uniform deviate in the cumulative distribution. *)
Definition choice_level (u : R) : Z :=
  if Rltb u 0.94 then 0%Z
  else if Rltb u (0.94 + 0.05) then 1%Z
  else if Rltb u (0.94 + 0.05 + 0.009) then 2%Z
  else 3%Z.

Definition np_random_choice_n (n : nat) : St (list Z) :=
  replicateM n (let* u := draw in ret (choice_level u)).

(** *** Arrays in the store *)

Definition read_f (a : loc) : St (list R) :=
  fun w => (farrs w !!! a, w).

Definition read_i (a : loc) : St (list Z) :=
  fun w => (iarrs w !!! a, w).

Definition write_f (a : loc) (v : list R) : St unit :=
  fun w => (tt, mkWorld (<[a := v]> (farrs w)) (iarrs w) (source w) (rng w)).

Definition write_i (a : loc) (v : list Z) : St unit :=
  fun w => (tt, mkWorld (farrs w) (<[a := v]> (iarrs w)) (source w) (rng w)).

Definition alloc_f (v : list R) : St loc :=
  fun w => (length (farrs w),
            mkWorld (farrs w ++ [v]) (iarrs w) (source w) (rng w)).

Definition alloc_i (v : list Z) : St loc :=
  fun w => (length (iarrs w),
            mkWorld (farrs w) (iarrs w ++ [v]) (source w) (rng w)).

(** ** [scattering_force] *)

Definition scattering_force (v delta I r delta_wavelength delta_magnetic : R)
  : St R :=
  let* e1 := np_random_normal 0 delta_wavelength in
  let k_L_eff := 2 * pi / (wavelength * (1 + e1)) in
  let s := I / I_s in
  let* e2 := np_random_normal 0 delta_magnetic in
  let delta_effective := delta * (1 + e2) in
  let I_r := I * exp (- r ^ 2 / beam_radius ^ 2) in
  ret (hbar * k_L_eff * I_r * Gamma
       / (2 * (1 + s + 4 * (delta_effective - k_L_eff * v) ^ 2 / Gamma ^ 2))).


(** ** NumPy helpers *)

Definition Rsum (xs : list R) : R := foldr Rplus 0 xs.

(** [np.mean] of a one-dimensional float array. *)
Definition np_mean (xs : list R) : R := Rsum xs / INR (length xs).

Definition np_any (mask : list bool) : bool := existsb (fun b => b) mask.

(** [a[mask]] for a boolean mask. *)
Definition np_take {A} (a : list A) (mask : list bool) : list A :=
  map fst (filter (fun p => Is_true (snd p)) (zip a mask)).

(** [np.where(mask, a, np.nan)]. *)
Definition np_where_nan (mask : list bool) (a : list R) : list float64 :=
  zip_with (fun (m : bool) x => if m then Num x else NaN) mask a.

Definition finite_values (a : list float64) : list R :=
  omap (fun x => match x with Num r => Some r | NaN => None end) a.

(** [np.nanmean]: the mean of the entries that are not NaN. *)
Definition np_nanmean (a : list float64) : float64 :=
  match finite_values a with
  | [] => NaN
  | xs => Num (np_mean xs)
  end.

Definition count_eq (b : Z) (a : list Z) : nat :=
  length (filter (fun x => x = b) a).

(** [np.bincount(a, minlength=m)] of non-negative integers. *)
Definition np_bincount (a : list Z) (minlength : nat) : list Z :=
  let bins := Nat.max minlength (S (Z.to_nat (foldr Z.max 0%Z a))) in
  map (fun b => Z.of_nat (count_eq (Z.of_nat b) a))
      (seq 0 (match a with [] => minlength | _ => bins end)).

Definition np_sum_i (a : list Z) : Z := foldr Z.add 0%Z a.

(** Integer array divided by an integer scalar (true division); the
    divisor is the sum of the non-negative dividends, so the only division
    by zero is 0/0. *)
Definition np_true_divide (a : list Z) (d : Z) : list float64 :=
  map (fun c => if (d =? 0)%Z then NaN else Num (IZR c / IZR d)) a.

(** The element types [np.mean] averages: reals, and floats with NaN. *)
Class Arith (T : Type) : Type := {
  azero : T;
  aadd : T -> T -> T;
  adivn : T -> nat -> T
}.

#[global] Instance Arith_R : Arith R :=
  {| azero := 0; aadd := Rplus; adivn := fun x n => x / INR n |}.

Definition f64_add (x y : float64) : float64 :=
  match x, y with
  | Num a, Num b => Num (a + b)
  | _, _ => NaN
  end.

Definition f64_divn (x : float64) (n : nat) : float64 :=
  match x with
  | Num a => Num (a / INR n)
  | NaN => NaN
  end.

#[global] Instance Arith_float64 : Arith float64 :=
  {| azero := Num 0; aadd := f64_add; adivn := f64_divn |}.

Section Means.
Context {T : Type} `{Arith T} `{Inhabited T}.

Definition amean (xs : list T) : T := adivn (foldr aadd azero xs) (length xs).

Definition column {X} `{Inhabited X} (j : nat) (rows : list (list X)) : list X :=
  map (fun r => r !!! j) rows.

Definition ncols {X} (rows : list (list X)) : nat :=
  match rows with
  | [] => 0%nat
  | r :: _ => length r
  end.

(** [np.mean(a, axis=0)] of a two-dimensional array. *)
Definition np_mean_axis0_2d (a : list (list T)) : list T :=
  map (fun j => amean (column j a)) (seq 0 (ncols a)).

(** [np.mean(a, axis=0)] of a three-dimensional array. *)
Definition np_mean_axis0_3d (a : list (list (list T))) : list (list T) :=
  map (fun t => np_mean_axis0_2d (column t a)) (seq 0 (ncols a)).

(** [np.mean(a, axis=1)] of a three-dimensional array: one row per entry
    of the first axis, averaged over the second. *)
Definition np_mean_axis1_3d (a : list (list (list T))) : list (list T) :=
  map np_mean_axis0_2d a.
End Means.

(** [np.arange(start, stop, step)] for a non-zero step:
    ceil((stop - start) / step) points start + i * step. Quotient, ceiling
    and points are taken over the reals; NumPy computes them in binary64,
    so where the quotient is within rounding of an integer the number of
    points can differ by one. *)
Definition np_arange (start stop step : R) : list R :=
  map (fun i => start + INR i * step)
      (seq 0 (Z.to_nat (Zceil ((stop - start) / step)))).

(** *** Element and mask assignment in the store *)

Definition getitem_i (a : loc) (i : nat) : St Z :=
  fun w => ((iarrs w !!! a) !!! i, w).

Definition setitem_i (a : loc) (i : nat) (x : Z) : St unit :=
  fun w => (tt, mkWorld (farrs w) (<[a := <[i := x]> (iarrs w !!! a)]> (iarrs w))
                        (source w) (rng w)).

Definition assign_mask (mask : list bool) (x : Z) (a : list Z) : list Z :=
  zip_with (fun (m : bool) old => if m then x else old) mask a.

(** [a[mask] = x] *)
Definition setitem_mask (a : loc) (mask : list bool) (x : Z) : St unit :=
  fun w => (tt, mkWorld (farrs w)
                        (<[a := assign_mask mask x (iarrs w !!! a)]> (iarrs w))
                        (source w) (rng w)).

(** ** [transition_between_levels] *)

(** One iteration of the inner loop, for atom [i] and one table entry. *)
Definition transition_item (levels : loc) (temperature dt : R) (i : nat)
    (item : (Z * Z) * R) : St unit :=
  let '((start, end_), prob) := item in
  let transition_prob :=
    prob * exp (- IZR (Z.abs (start - end_)) * temperature / k) * dt in
  let* u := np_random_rand in
  if Rltb u transition_prob then
    let* li := getitem_i levels i in
    if (li =? start)%Z then setitem_i levels i end_ else ret tt
  else ret tt.

Definition transition_between_levels (levels : loc) (temperature dt : R)
  : St loc :=
  let* lv := read_i levels in
  let* _ := for_each (seq 0 (length lv)) (fun i =>
              for_each transition_probabilities
                       (transition_item levels temperature dt i)) in
  ret levels.

(** ** [repumper_effect_on_levels] *)

Definition repumper_prob (I_repumper temp_safe v : R) : R :=
  repumper_effect * I_repumper / I_s
  * exp (- v ^ 2 / (2 * k * temp_safe / mass_Rb)).

Definition leak_prob : R := 1e-21.

Definition repumper_effect_on_levels (levels velocities : loc)
    (I_repumper temperature delta_wavelength : R) : St loc :=
  let* e := np_random_normal 0 delta_wavelength in
  let k_L_eff_repumper := 2 * pi / (repumper_wavelength * (1 + e)) in
  let temp_safe := Rmax temperature 1e-12 in
  let* vs := read_f velocities in
  let transition_prob := map (repumper_prob I_repumper temp_safe) vs in
  let* lv0 := read_i levels in
  let* level_transition_prob := alloc_i lv0 in
  let* lv1 := read_i levels in
  let mask_F1 := map (fun l => (l =? 0)%Z) lv1 in
  let* lv2 := read_i levels in
  let* us := np_random_rand_n (length lv2) in
  let transitions := zip_with Rltb us transition_prob in
  let* _ := setitem_mask level_transition_prob
              (zip_with andb mask_F1 transitions) 1%Z in
  let* lv3 := read_i levels in
  let mask_F2_F3 := map (fun l => (l =? 1)%Z || (l =? 2)%Z) lv3 in
  let* lv4 := read_i levels in
  let* us' := np_random_rand_n (length lv4) in
  let leaks := map (fun u => Rltb u leak_prob) us' in
  let* _ := setitem_mask level_transition_prob
              (zip_with andb mask_F2_F3 leaks) 3%Z in
  ret level_transition_prob.

(** ** [simulate_mot] *)

(** The local variables of one pass of the outer loop. The two history
    lists hold references: [velocities_to_avg.append(velocities)] stores
    the array object, not a copy of its contents. *)
Record run_locals : Type := mkLocals {
  velocities : loc;
  positions : loc;
  levels : loc;
  T_avg_trapped : R;
  velocities_to_avg : list loc;
  positions_to_avg : list loc;
  temperatures : list R;
  velocity_distributions : list (list float64);
  levels_distributions : list (list float64)
}.

(** Mean velocity of the atoms whose level is [l], NaN if there is none. *)
Definition level_velocity (l : Z) (lv : list Z) (vs : list R) : float64 :=
  if np_any (map (fun x => (x =? l)%Z) lv)
  then np_nanmean (np_where_nan (map (fun x => (x =? l)%Z) lv) vs)
  else NaN.

(** The four entries appended to [velocity_distributions]. *)
Definition level_velocities (lv : list Z) (vs : list R) : list float64 :=
  let avg_level_1_velocity := level_velocity 1 lv vs in
  let avg_level_2_velocity := level_velocity 2 lv vs in
  let avg_level_3_velocity := level_velocity 3 lv vs in
  let avg_level_4_velocity := level_velocity 4 lv vs in
  [avg_level_1_velocity; avg_level_2_velocity;
   avg_level_3_velocity; avg_level_4_velocity].

(** Temperature of the atoms inside the beam. *)
Definition trapped_temperature (ps vs : list R) : R :=
  let trapped_atoms := map (fun p => Rltb (Rabs p) beam_radius) ps in
  let trapped_velocities := np_take vs trapped_atoms in
  if (0 <? length trapped_velocities)%nat
  then np_mean (map (fun v => mass_Rb * v ^ 2) trapped_velocities) / k
  else 0.

(** The body of the time loop. *)
Definition mot_step (dt : R) (st : run_locals) : St run_locals :=
  let* e := np_random_normal 0 power_fluctuation in
  let P_laser_eff := P_laser * (1 + e) in
  let* vs0 := read_f (velocities st) in
  let* ps0 := read_f (positions st) in
  let* forces :=
    mapM (fun vp : R * R =>
            scattering_force (fst vp) 0
              (P_laser_eff / (pi * (beam_diameter / 2) ^ 2)) (snd vp)
              wavelength_fluctuation magnetic_fluctuation)
         (zip vs0 ps0) in
  let* vs1 := read_f (velocities st) in
  let* _ := write_f (velocities st)
              (zip_with Rplus vs1 (map (fun f => f / mass_Rb * dt) forces)) in
  let* ps1 := read_f (positions st) in
  let* vs2 := read_f (velocities st) in
  let* _ := write_f (positions st)
              (zip_with Rplus ps1 (map (fun v => v * dt) vs2)) in
  let velocities_to_avg' := velocities_to_avg st ++ [velocities st] in
  let positions_to_avg' := positions_to_avg st ++ [positions st] in
  let* lv := read_i (levels st) in
  let* vs3 := read_f (velocities st) in
  let velocity_distributions' :=
    velocity_distributions st ++ [level_velocities lv vs3] in
  let* ps2 := read_f (positions st) in
  let T_avg_trapped' := trapped_temperature ps2 vs3 in
  let temperatures' := temperatures st ++ [T_avg_trapped'] in
  let temperature := T_avg_trapped' in
  let* levels_ := repumper_effect_on_levels (levels st) (velocities st)
                    repumper_intensity temperature wavelength_fluctuation in
  let* levels_' := transition_between_levels levels_ temperature dt in
  let* lv' := read_i levels_' in
  let level_counts := np_bincount lv' 4 in
  let level_distribution := np_true_divide level_counts (np_sum_i level_counts) in
  ret (mkLocals (velocities st) (positions st) levels_' T_avg_trapped'
         velocities_to_avg' positions_to_avg' temperatures'
         velocity_distributions'
         (levels_distributions st ++ [level_distribution])).

(** The time loop: one [mot_step] per element of [times]. *)
Fixpoint run_steps (times : list R) (dt : R) (st : run_locals)
  : St run_locals :=
  match times with
  | [] => ret st
  | _ :: ts => let* st' := mot_step dt st in run_steps ts dt st'
  end.

(** The draws that start a run. *)
Definition init_ensemble (n : nat) : St run_locals :=
  let* vs := np_random_normal_n 0 (sqrt (k * T0 / mass_Rb)) n in
  let* velocities := alloc_f vs in
  let* ps := np_random_uniform_n (- beam_radius) beam_radius n in
  let* positions := alloc_f ps in
  let* ls := np_random_choice_n n in
  let* levels := alloc_i ls in
  ret (mkLocals velocities positions levels T0 [] [] [] [] []).

(** *** Exceptions *)

Inductive exn : Type :=
| ZeroDivisionError   (* np.arange with step 0 *)
| ValueError          (* a negative array size *)
| AxisError           (* np.mean(..., axis=1) of a one-dimensional array *)
| IndexError.         (* [-1] of an empty array *)

(** Outcome of a call that may raise; both outcomes carry the world the
    call leaves behind. *)
Inductive result (A : Type) : Type :=
| Ok (a : A) (w : world)
| Raise (e : exn) (w : world).
Arguments Ok {A} a w.
Arguments Raise {A} e w.

(** One pass of the outer loop: the run's [times] and final locals. *)
Definition run_once (n_atoms : Z) (time_max dt : R) (w : world)
  : result (list R * run_locals) :=
  if Req_dec_T dt 0 then Raise ZeroDivisionError w
  else
    let times := np_arange 0 time_max dt in
    if (n_atoms <? 0)%Z then Raise ValueError w
    else
      let '(st, w') :=
        (let* st0 := init_ensemble (Z.to_nat n_atoms) in
         run_steps times dt st0) w in
      Ok (times, st) w'.

(** What the outer loop has accumulated. *)
Record run_lists : Type := mkLists {
  times_last : list R;
  positions_all : list (list loc);
  velocities_all : list (list loc);
  temperatures_all : list (list R);
  velocity_distributions_all : list (list (list float64));
  level_populations_all : list (list (list float64))
}.

Definition no_runs : run_lists := mkLists [] [] [] [] [] [].

Fixpoint simulate_runs (n : nat) (n_atoms : Z) (time_max dt : R)
    (acc : run_lists) (w : world) : result run_lists :=
  match n with
  | O => Ok acc w
  | S n' =>
      match run_once n_atoms time_max dt w with
      | Raise e w' => Raise e w'
      | Ok (times, st) w' =>
          simulate_runs n' n_atoms time_max dt
            (mkLists times
               (positions_all acc ++ [positions_to_avg st])
               (velocities_all acc ++ [velocities_to_avg st])
               (temperatures_all acc ++ [temperatures st])
               (velocity_distributions_all acc ++ [velocity_distributions st])
               (level_populations_all acc ++ [levels_distributions st]))
            w'
      end
  end.

(** The arrays a nested list of references denotes when NumPy converts it. *)
Definition deref (w : world) (a : list (list loc)) : list (list (list R)) :=
  map (map (fun l => farrs w !!! l)) a.

Record mot_output : Type := mkOutput {
  times : list R;
  avg_positions : list (list R);
  avg_velocities : list (list R);
  avg_temperatures : list R;
  avg_level_populations : list (list float64);
  avg_velocity_distributions : list (list float64)
}.

Definition simulate_mot (n_atoms : Z) (time_max dt : R) (n_simulations : Z)
    (w : world) : result mot_output :=
  match simulate_runs (Z.to_nat n_simulations) n_atoms time_max dt no_runs w with
  | Raise e w' => Raise e w'
  | Ok acc w' =>
      match positions_all acc with
      | [] => Raise AxisError w'
      | _ =>
          let avg_positions := np_mean_axis1_3d (deref w' (positions_all acc)) in
          let avg_velocities := np_mean_axis1_3d (deref w' (velocities_all acc)) in
          let avg_temperatures := np_mean_axis0_2d (temperatures_all acc) in
          let avg_level_populations :=
            np_mean_axis0_3d (level_populations_all acc) in
          let avg_velocity_distributions :=
            np_mean_axis0_3d (velocity_distributions_all acc) in
          match last avg_temperatures with
          | None => Raise IndexError w'
          | Some _ =>
              Ok (mkOutput (times_last acc) avg_positions avg_velocities
                    avg_temperatures avg_level_populations
                    avg_velocity_distributions) w'
          end
      end
  end.

(** ** [plot_results] *)

(** The rows of [positions] (and of [velocities]) that [plot_results]
    draws as histograms: [positions[0]], [positions[len // 5]],
    [positions[len // 2]], [positions[len * 4 // 5]], [positions[len - 1]]. *)
Definition histogram_rows (len : Z) : list Z :=
  [0; len / 5; len / 2; len * 4 / 5; len - 1]%Z.

(** An index NumPy accepts for an axis of length [len]. *)
Definition index_in_bounds (len i : Z) : Prop := (- len <= i < len)%Z.

(** ** Auxiliary notions used to state the properties *)

(** The wavenumber a call really uses: the nominal wavelength perturbed by
    the call's first draw. *)
Definition k_L_eff_of (delta_wavelength : R) (w : world) : R :=
  2 * pi / (wavelength * (1 + (0 + delta_wavelength * source w (rng w)))).

(** A store with nothing allocated whose generator always returns [z]. *)
Definition constant_world (z : R) : world := mkWorld [] [] (fun _ => z) 0.

(** The world after [n] more draws. *)
Definition advance (n : nat) (w : world) : world :=
  mkWorld (farrs w) (iarrs w) (source w) (rng w + n).

(** The [n] raw draws found [off] places after the cursor. *)
Definition draws (w : world) (off n : nat) : list R :=
  map (fun i => source w (rng w + off + i)%nat) (seq 0 n).

(** The array [repumper_effect_on_levels] builds from the input levels
    [lv], the velocities [vs] and the two vectors of uniform draws. *)
Definition repumper_result (I_repumper temperature : R) (lv : list Z)
    (vs us us' : list R) : list Z :=
  assign_mask
    (zip_with andb (map (fun l => (l =? 1)%Z || (l =? 2)%Z) lv)
                   (map (fun u => Rltb u leak_prob) us')) 3%Z
    (assign_mask
       (zip_with andb (map (fun l => (l =? 0)%Z) lv)
          (zip_with Rltb us
             (map (repumper_prob I_repumper (Rmax temperature 1e-12)) vs)))
       1%Z lv).

(** The probability [transition_between_levels] computes for a table
    entry. *)
Definition transition_prob_of (temperature dt : R) (item : (Z * Z) * R) : R :=
  let '((start, end_), prob) := item in
  prob * exp (- IZR (Z.abs (start - end_)) * temperature / k) * dt.

(** The effect of one table entry, drawn against [u], on an atom whose
    current level is [lvl]. *)
Definition scan_item (temperature dt : R) (lvl : Z) (iu : ((Z * Z) * R) * R)
  : Z :=
  let '(item, u) := iu in
  if Rltb u (transition_prob_of temperature dt item)
     && (lvl =? fst (fst item))%Z
  then snd (fst item) else lvl.

(** A scan of the table in order: every entry meets the level left by the
    entries before it. *)
Definition scan_atom (temperature dt : R) (table : list ((Z * Z) * R))
    (us : list R) (lvl : Z) : Z :=
  foldl (scan_item temperature dt) lvl (zip table us).

(** The levels array after the atoms [a], [a+1], ..., [a+n-1] were
    scanned, the draws starting at position [r] of [src]. *)
Fixpoint scan_range (temperature dt : R) (src : nat -> R) (r a n : nat)
    (lv : list Z) : list Z :=
  match n with
  | O => lv
  | S n' =>
      scan_range temperature dt src (r + 6) (S a) n'
        (<[a := scan_atom temperature dt transition_probabilities
                  (map (fun j => src (r + j)%nat) (seq 0 6)) (lv !!! a)]> lv)
  end.

(** The forces of one time step: [scattering_force] for every atom in
    turn, at detuning 0 and beam intensity [I]. *)
Definition step_forces (I : R) (vp : list (R * R)) : St (list R) :=
  mapM (fun vp : R * R =>
          scattering_force (fst vp) 0 I (snd vp)
            wavelength_fluctuation magnetic_fluctuation) vp.

(** The float arrays after [velocities += forces / mass_Rb * dt] and
    [positions += velocities * dt]. *)
Definition euler_farrs (dt : R) (st : run_locals) (fa : list (list R))
    (forces : list R) : list (list R) :=
  let fa1 := <[velocities st :=
                 zip_with Rplus (fa !!! velocities st)
                   (map (fun f => f / mass_Rb * dt) forces)]> fa in
  <[positions st :=
      zip_with Rplus (fa1 !!! positions st)
        (map (fun v => v * dt) (fa1 !!! velocities st))]> fa1.

(** The references of a run's locals are allocated, the three arrays have
    [n] entries and every level is one of 0, 1, 2, 3. *)
Definition shape_ok (n : nat) (st : run_locals) (w : world) : Prop :=
  (velocities st < length (farrs w))%nat /\
  (positions st < length (farrs w))%nat /\
  (levels st < length (iarrs w))%nat /\
  length (farrs w !!! velocities st) = n /\
  length (farrs w !!! positions st) = n /\
  length (iarrs w !!! levels st) = n /\
  Forall (fun l => (0 <= l <= 3)%Z) (iarrs w !!! levels st).

#[global] Instance Rlt_decision (x y : R) : Decision (x < y) := Rlt_dec x y.

(** In the words of the specification: the velocities of the atoms whose
    position lies strictly inside the beam radius. *)
Definition trapped_speeds (ps vs : list R) : list R :=
  map snd (filter (fun pv : R * R => Rabs (fst pv) < beam_radius) (zip ps vs)).

(** A recorded level-population vector: four finite fractions whose sum
    is 1 up to 1e-9. *)
Definition population_ok (d : list float64) : Prop :=
  exists xs, d = map Num xs /\ length xs = 4%nat /\ Rabs (Rsum xs - 1) <= 1e-9.

(** A run of the time loop over [ts], started from fresh initial draws. *)
Definition run_from_init (n : nat) (ts : list R) (dt : R) : St run_locals :=
  let* st0 := init_ensemble n in run_steps ts dt st0.

(** The initial draws of [runs] runs of [n] atoms, and nothing else. *)
Fixpoint init_only (runs n : nat) : St unit :=
  match runs with
  | O => ret tt
  | S r => let* _ := init_ensemble n in init_only r n
  end.

(** The velocities of the atoms whose level is [l]. *)
Definition speeds_at_level (l : Z) (lv : list Z) (vs : list R) : list R :=
  map snd (filter (fun p : Z * R => fst p = l) (zip lv vs)).

(** * Properties *)

Lemma scattering_force_rest_value (I dw dm : R) (w : world) :
  fst (scattering_force 0 0 I 0 dw dm w)
  = hbar * k_L_eff_of dw w * I * Gamma / (2 * (1 + I / I_s)).
Proof.
  unfold scattering_force, k_L_eff_of, np_random_normal, bind, draw, ret.
  cbn [fst snd source rng].
  replace (- 0 ^ 2 / beam_radius ^ 2) with 0 by (unfold Rdiv; ring).
  rewrite exp_0.
  f_equal; [ring|].
  unfold Rdiv; ring.
Qed.

(** C6 (amended): at detuning 0, velocity 0 and radius 0, and when neither
    division of the call is a division by zero (the perturbed wavelength
    lambda * (1 + eps) is not 0, and 1 + s is not 0), the force is
    hbar * k_eff * I * Gamma / (2 * (1 + s)) with s = I / I_s and k_eff the
    wavenumber 2*pi / (lambda * (1 + eps)) of the wavelength perturbed by
    the call's own draw eps; there is no Doppler term. It equals the
    expression with the nominal wavenumber k = 2*pi/lambda exactly when
    eps = 0 or I = 0. *)
Theorem scattering_force_at_rest (I dw dm : R) (w : world) :
  let eps := 0 + dw * source w (rng w) in
  1 + eps <> 0 -> 1 + I / I_s <> 0 ->
  fst (scattering_force 0 0 I 0 dw dm w)
  = hbar * (2 * pi / (wavelength * (1 + eps))) * I * Gamma
    / (2 * (1 + I / I_s)) /\
  (fst (scattering_force 0 0 I 0 dw dm w)
   = hbar * k_L * I * Gamma / (2 * (1 + I / I_s))
   <-> eps = 0 \/ I = 0).
Proof.
  intros eps Heps Hs. rewrite scattering_force_rest_value.
  unfold k_L_eff_of. fold eps. split; [reflexivity|].
  assert (Hpi := PI_RGT_0).
  assert (HIs : I_s + I <> 0).
  { intros H0. apply Hs. unfold I_s in *. lra. }
  assert (HIs0 : I_s <> 0) by (unfold I_s; lra).
  set (F := hbar * (2 * pi / (wavelength * (1 + eps))) * I * Gamma
            / (2 * (1 + I / I_s))).
  set (N := hbar * k_L * I * Gamma / (2 * (1 + I / I_s))).
  assert (Hscale : F * (1 + eps) = N).
  { unfold F, N, k_L, hbar, Gamma, pi, wavelength. field.
    repeat split; done || lra. }
  assert (Hc : N = 6.62607015e-34 * 6.07e6 / 780.241e-9 * PI
                   * (I * / (1 + I / I_s))).
  { unfold N, k_L, hbar, Gamma, pi, wavelength. field.
    repeat split; done || lra. }
  assert (Hc0 : 6.62607015e-34 * 6.07e6 / 780.241e-9 * PI <> 0).
  { apply Rmult_integral_contrapositive_currified; lra. }
  split.
  - intros HFN. rewrite HFN in Hscale.
    assert (Hz : N * eps = 0) by lra.
    apply Rmult_integral in Hz as [HN | He]; [|by left]. right.
    rewrite Hc in HN.
    apply Rmult_integral in HN as [HN | HN]; [done|].
    apply Rmult_integral in HN as [HN | HN]; [done|].
    by apply Rinv_neq_0_compat in Hs.
  - intros [He | HI].
    + rewrite <- Hscale, He. lra.
    + rewrite <- Hscale. unfold F. rewrite HI. unfold Rdiv. ring.
Qed.

Lemma scattering_force_at_rest_witness :
  let eps := 0 + wavelength_fluctuation
                 * source (constant_world 1) (rng (constant_world 1)) in
  fst (scattering_force 0 0 20 0 wavelength_fluctuation magnetic_fluctuation
         (constant_world 1))
  = hbar * (2 * pi / (wavelength * (1 + eps))) * 20 * Gamma
    / (2 * (1 + 20 / I_s)) /\
  (fst (scattering_force 0 0 20 0 wavelength_fluctuation magnetic_fluctuation
          (constant_world 1))
   = hbar * k_L * 20 * Gamma / (2 * (1 + 20 / I_s))
   <-> eps = 0 \/ 20 = 0).
Proof.
  apply (scattering_force_at_rest 20 wavelength_fluctuation
           magnetic_fluctuation (constant_world 1)).
  - unfold wavelength_fluctuation, constant_world.
    cbv beta iota delta [source rng]. lra.
  - unfold I_s. lra.
Defined.

(** C6 (counterexample): with a one-sigma wavelength draw the force at
    rest differs from the nominal-wavenumber expression. *)
Lemma scattering_force_not_nominal :
  fst (scattering_force 0 0 1 0 wavelength_fluctuation magnetic_fluctuation
         (constant_world 1))
  <> hbar * k_L * 1 * Gamma / (2 * (1 + 1 / I_s)).
Proof.
  rewrite scattering_force_rest_value.
  unfold k_L_eff_of, constant_world; cbn [source rng].
  set (lhs := hbar * _ * 1 * Gamma / _).
  set (rhs := hbar * k_L * 1 * Gamma / _).
  assert (Hpi := PI_RGT_0).
  assert (Hscale : lhs * (1 + 5e-8) = rhs).
  { unfold lhs, rhs, k_L, hbar, Gamma, pi, wavelength,
      wavelength_fluctuation, I_s.
    field. lra. }
  assert (Hrhs : rhs = 6.62607015e-34 * 6.07e6
                       / (780.241e-9 * (1 + 1 / 25)) * PI).
  { unfold rhs, k_L, hbar, Gamma, pi, wavelength, I_s. field. lra. }
  assert (Hpos : 0 < rhs).
  { rewrite Hrhs. apply Rmult_lt_0_compat; [lra | exact Hpi]. }
  intros Heq. rewrite Heq in Hscale. lra.
Qed.

(** ** The state monad and the generator *)

Lemma advance_0 w : advance 0 w = w.
Proof. destruct w; unfold advance; cbn. by rewrite Nat.add_0_r. Qed.

Lemma advance_advance n m w : advance n (advance m w) = advance (m + n) w.
Proof. unfold advance; cbn. f_equal. lia. Qed.

Lemma replicateM_draw {A} (g : R -> A) (m : St A) n w :
  (forall w0, m w0 = (g (source w0 (rng w0)), advance 1 w0)) ->
  replicateM n m w
  = (map (fun i => g (source w (rng w + i)%nat)) (seq 0 n), advance n w).
Proof.
  intros Hm. revert w. induction n as [|n IH]; intros w.
  - cbn. by rewrite advance_0.
  - cbn [replicateM]. unfold bind at 1. rewrite Hm.
    unfold bind at 1. rewrite IH. unfold ret.
    rewrite advance_advance. cbn [seq map]. f_equal. f_equal.
    + by rewrite Nat.add_0_r.
    + rewrite <- seq_shift, map_map. apply map_ext; intros i.
      cbn. do 2 f_equal. lia.
Qed.

Lemma np_random_rand_n_eq n w :
  np_random_rand_n n w = (draws w 0 n, advance n w).
Proof.
  unfold np_random_rand_n. rewrite (replicateM_draw (fun u => u)).
  - unfold draws. f_equal. apply map_ext; intros i. f_equal. lia.
  - intros w0. unfold np_random_rand, draw, advance.
    by rewrite Nat.add_1_r.
Qed.

Lemma length_draws w off n : length (draws w off n) = n.
Proof. unfold draws. by rewrite length_map, length_seq. Qed.

Lemma lookup_draws w off n i :
  (i < n)%nat -> draws w off n !! i = Some (source w (rng w + off + i)%nat).
Proof.
  intros Hi. unfold draws. rewrite list_lookup_fmap, lookup_seq_lt by done.
  done.
Qed.
Lemma insert_snoc {A} (l : list A) (x y : A) :
  <[length l := y]> (l ++ [x]) = l ++ [y].
Proof.
  rewrite insert_app_r_alt by lia. by rewrite Nat.sub_diag.
Qed.

Lemma lookup_total_snoc `{Inhabited A} (l : list A) (x : A) :
  (l ++ [x]) !!! length l = x.
Proof.
  rewrite lookup_total_app_r by lia. by rewrite Nat.sub_diag.
Qed.

Lemma repumper_unfold levels velocities I_repumper temperature dw w :
  (levels < length (iarrs w))%nat ->
  repumper_effect_on_levels levels velocities I_repumper temperature dw w
  = (length (iarrs w),
     let lv := iarrs w !!! levels in
     let n := length lv in
     mkWorld (farrs w)
       (iarrs w ++ [repumper_result I_repumper temperature lv
                      (farrs w !!! velocities)
                      (draws w 1 n) (draws w (1 + n) n)])
       (source w) (rng w + 1 + n + n)).
Proof.
  intros Hl. destruct w as [fa ia src r]. cbn [iarrs farrs source rng] in *.
  cbv beta iota zeta delta [repumper_effect_on_levels np_random_normal bind draw ret
    read_f read_i alloc_i setitem_mask farrs iarrs source rng].
  rewrite !lookup_total_app_l by done.
  rewrite np_random_rand_n_eq.
  cbv beta iota zeta delta [advance farrs iarrs source rng].
  rewrite lookup_total_snoc, insert_snoc.
  rewrite !lookup_total_app_l by done.
  rewrite np_random_rand_n_eq.
  cbv beta iota zeta delta [advance farrs iarrs source rng].
  rewrite lookup_total_snoc, insert_snoc.
  unfold repumper_result, draws. cbn [source rng].
  replace (S r + 0)%nat with (r + 1)%nat by lia.
  replace (S r + length (ia !!! levels) + 0)%nat
    with (r + (1 + length (ia !!! levels)))%nat by lia.
  replace (S r + length (ia !!! levels) + length (ia !!! levels))%nat
    with (r + 1 + length (ia !!! levels) + length (ia !!! levels))%nat by lia.
  reflexivity.
Qed.

Lemma length_assign_mask mask x a :
  length mask = length a -> length (assign_mask mask x a) = length a.
Proof. intros. unfold assign_mask. by rewrite length_zip_with_r_eq. Qed.

Lemma lookup_assign_mask mask x a i (m : bool) old :
  mask !! i = Some m -> a !! i = Some old ->
  assign_mask mask x a !! i = Some (if m then x else old).
Proof.
  intros Hm Ha. unfold assign_mask. rewrite lookup_zip_with, Hm. cbn.
  by rewrite Ha.
Qed.

Lemma lookup_repumper_result I_repumper temperature lv vs us us' i l v u u' :
  lv !! i = Some l -> vs !! i = Some v -> us !! i = Some u ->
  us' !! i = Some u' ->
  repumper_result I_repumper temperature lv vs us us' !! i
  = Some (if ((l =? 1)%Z || (l =? 2)%Z) && Rltb u' leak_prob then 3%Z
          else if (l =? 0)%Z
                  && Rltb u (repumper_prob I_repumper (Rmax temperature 1e-12) v)
               then 1%Z else l).
Proof.
  intros Hl Hv Hu Hu'. unfold repumper_result.
  apply lookup_assign_mask.
  - rewrite lookup_zip_with, !list_lookup_fmap, Hl, Hu'. done.
  - apply lookup_assign_mask; [|done].
    rewrite lookup_zip_with, list_lookup_fmap, Hl. cbn.
    rewrite lookup_zip_with, Hu. cbn. rewrite list_lookup_fmap, Hv. done.
Qed.


(** ** The repumper *)

Lemma repumper_prob_eq I_repumper temp_safe v :
  repumper_prob I_repumper temp_safe v
  = repumper_effect * (I_repumper / I_s)
    * exp (- v ^ 2 / (2 * k * temp_safe / mass_Rb)).
Proof. unfold repumper_prob, Rdiv. ring. Qed.

(** C10: [repumper_effect_on_levels] writes only to the array it allocates:
    the reference it returns is new, and the caller's levels array, like
    every array that existed before the call, holds the values it held. *)
Theorem repumper_leaves_input_unchanged
    levels velocities I_repumper temperature dw w :
  (levels < length (iarrs w))%nat ->
  let '(res, w') :=
    repumper_effect_on_levels levels velocities I_repumper temperature dw w in
  iarrs w !! res = None /\
  is_Some (iarrs w' !! res) /\
  res <> levels /\
  iarrs w' !! levels = iarrs w !! levels /\
  (forall a, (a < length (iarrs w))%nat -> iarrs w' !! a = iarrs w !! a) /\
  farrs w' = farrs w.
Proof.
  intros Hl. rewrite repumper_unfold by done. cbn [iarrs farrs].
  repeat split.
  - by apply lookup_ge_None_2.
  - apply lookup_lt_is_Some_2. rewrite length_app. cbn. lia.
  - lia.
  - by rewrite lookup_app_l.
  - intros a Ha. by rewrite lookup_app_l.
Qed.

Lemma repumper_leaves_input_unchanged_witness :
  let w := mkWorld [[0]] [[0; 1; 2; 3]%Z] (fun _ => 0) 0 in
  let '(res, w') :=
    repumper_effect_on_levels 0%nat 0%nat repumper_intensity 0
      wavelength_fluctuation w in
  iarrs w !! res = None /\
  is_Some (iarrs w' !! res) /\
  res <> 0%nat /\
  iarrs w' !! 0%nat = iarrs w !! 0%nat /\
  (forall a, (a < length (iarrs w))%nat -> iarrs w' !! a = iarrs w !! a) /\
  farrs w' = farrs w.
Proof.
  intros w.
  apply (repumper_leaves_input_unchanged 0%nat 0%nat repumper_intensity 0
           wavelength_fluctuation w).
  cbn. lia.
Defined.

(** C9: the repumper clamps the temperature to max(T, 1e-12); an atom at
    level 0 ends at level 1 exactly when its own uniform draw is below
    repumper_effect * (I_repumper / I_s) * exp(-v^2 / (2 k_B T_clamped / m))
    for its own velocity v, and stays at level 0 otherwise; an atom at
    another level keeps its level or leaks to level 3, so it is never
    moved to level 1. *)
Theorem repumper_promotes_only_level_0
    levels velocities I_repumper temperature dw w i l v :
  (iarrs w !!! levels) !! i = Some l ->
  (farrs w !!! velocities) !! i = Some v ->
  let T_clamped := Rmax temperature 1e-12 in
  let p := repumper_effect * (I_repumper / I_s)
           * exp (- v ^ 2 / (2 * k * T_clamped / mass_Rb)) in
  let u := source w (rng w + 1 + i)%nat in
  let '(res, w') :=
    repumper_effect_on_levels levels velocities I_repumper temperature dw w in
  exists l', (iarrs w' !!! res) !! i = Some l' /\
    (l = 0%Z -> l' = if Rltb u p then 1%Z else 0%Z) /\
    (l <> 0%Z -> l' = l \/ l' = 3%Z).
Proof.
  intros Hl Hv T_clamped p u.
  assert (Hlev : (levels < length (iarrs w))%nat).
  { destruct (decide (levels < length (iarrs w))%nat) as [|Hge]; [done|].
    rewrite list_lookup_total_alt, (lookup_ge_None_2 (iarrs w) levels) in Hl by lia.
    cbn in Hl. by rewrite lookup_nil in Hl. }
  assert (Hi : (i < length (iarrs w !!! levels))%nat).
  { apply lookup_lt_is_Some_1. by eexists. }
  rewrite repumper_unfold by done. cbn [iarrs].
  rewrite lookup_total_snoc.
  erewrite lookup_repumper_result;
    [| exact Hl | exact Hv | by apply lookup_draws | by apply lookup_draws].
  eexists. split; [reflexivity|]. split.
  - intros ->. cbn. fold T_clamped. rewrite repumper_prob_eq. done.
  - intros Hne. destruct (_ && Rltb _ leak_prob); [by right|].
    replace (l =? 0)%Z with false by (symmetry; by apply Z.eqb_neq).
    by left.
Qed.

Lemma repumper_promotes_only_level_0_witness :
  let w := mkWorld [[0; 2]] [[0; 1]%Z] (fun _ => 0) 0 in
  let '(res, w') :=
    repumper_effect_on_levels 0%nat 0%nat repumper_intensity 0
      wavelength_fluctuation w in
  exists l', (iarrs w' !!! res) !! 0%nat = Some l' /\
    (0%Z = 0%Z ->
     l' = if Rltb (source w (rng w + 1 + 0)%nat)
                  (repumper_effect * (repumper_intensity / I_s)
                   * exp (- 0 ^ 2 / (2 * k * Rmax 0 1e-12 / mass_Rb)))
          then 1%Z else 0%Z) /\
    (0%Z <> 0%Z -> l' = 0%Z \/ l' = 3%Z).
Proof.
  intros w.
  apply (repumper_promotes_only_level_0 0%nat 0%nat repumper_intensity 0
           wavelength_fluctuation w 0%nat 0%Z 0); reflexivity.
Defined.

(** ** Per-level mean velocities *)

Lemma level_velocity_unpopulated l lv vs :
  Forall (fun x => x <> l) lv -> level_velocity l lv vs = NaN.
Proof.
  intros Hne. unfold level_velocity.
  replace (np_any (map (fun x => (x =? l)%Z) lv)) with false; [done|].
  symmetry. induction Hne as [|x lv Hx _ IH]; [done|].
  cbn. by rewrite (proj2 (Z.eqb_neq x l)).
Qed.

Lemma level_velocities_last_nan lv vs :
  Forall (fun l => (0 <= l <= 3)%Z) lv ->
  level_velocities lv vs !! 3%nat = Some NaN.
Proof.
  intros Hr. unfold level_velocities. cbn. f_equal.
  apply level_velocity_unpopulated.
  eapply Forall_impl; [exact Hr|]. cbn. lia.
Qed.

Lemma level_velocities_skip_level_0 lv vs :
  Forall (fun l => l = 0%Z) lv ->
  level_velocities lv vs = [NaN; NaN; NaN; NaN].
Proof.
  intros Hz. unfold level_velocities.
  rewrite !level_velocity_unpopulated; [done|..];
    (eapply Forall_impl; [exact Hz|]; cbn; lia).
Qed.

(** C5 (failing input): with one atom at level 0 moving at 2 m/s and one
    atom at level 1 moving at 5 m/s, the recorded 4-vector carries the
    level-1 mean in component 0 and NaN in component 1: its components
    stand for levels 1, 2, 3, 4, not 0, 1, 2, 3. *)
Theorem level_velocities_shifted :
  level_velocities [0; 1]%Z [2; 5] = [Num 5; NaN; NaN; NaN].
Proof.
  unfold level_velocities, level_velocity. cbn.
  unfold np_mean, Rsum. cbn. do 2 f_equal. lra.
Qed.

(** ** The level-transition model *)

Lemma Rltb_true x y : x < y -> Rltb x y = true.
Proof. intros. unfold Rltb. by destruct (Rlt_dec x y). Qed.

Lemma Rltb_false x y : ~ x < y -> Rltb x y = false.
Proof. intros. unfold Rltb. by destruct (Rlt_dec x y). Qed.

Lemma transition_item_eq levels temperature dt i item w lv l :
  iarrs w !! levels = Some lv -> lv !! i = Some l ->
  transition_item levels temperature dt i item w
  = (tt, mkWorld (farrs w)
           (<[levels := <[i := scan_item temperature dt l
                                  (item, source w (rng w))]> lv]> (iarrs w))
           (source w) (S (rng w))).
Proof.
  intros Hlv Hl. destruct item as [[start end_] prob].
  unfold transition_item, scan_item, transition_prob_of.
  cbv beta iota zeta delta [bind np_random_rand draw ret getitem_i setitem_i
    farrs iarrs source rng fst snd].
  destruct w as [fa ia src r]; cbn [farrs iarrs source rng] in *.
  destruct (Rltb _ _); cbn [andb].
  - cbv beta iota zeta delta [farrs iarrs source rng].
    rewrite (list_lookup_total_correct ia levels lv) by done.
    rewrite (list_lookup_total_correct lv i l) by done.
    destruct (l =? start)%Z; cbv beta iota zeta delta [farrs iarrs source rng].
    + by rewrite (list_lookup_total_correct ia levels lv).
    + do 2 f_equal. by rewrite (list_insert_id lv i l), list_insert_id.
  - do 2 f_equal. by rewrite (list_insert_id lv i l), list_insert_id.
Qed.

Lemma inner_loop levels temperature dt i tab :
  forall w lv l,
  iarrs w !! levels = Some lv -> lv !! i = Some l ->
  for_each tab (transition_item levels temperature dt i) w
  = (tt, mkWorld (farrs w)
           (<[levels := <[i := scan_atom temperature dt tab
                                  (draws w 0 (length tab)) l]> lv]> (iarrs w))
           (source w) (rng w + length tab)).
Proof.
  induction tab as [|item tab IH]; intros w lv l Hlv Hl.
  - cbn. unfold ret. destruct w as [fa ia src r]; cbn in *.
    rewrite Nat.add_0_r. f_equal. f_equal.
    by rewrite (list_insert_id lv i l), list_insert_id.
  - cbn [for_each]. unfold bind at 1.
    rewrite (transition_item_eq _ _ _ _ _ _ lv l) by done.
    set (l1 := scan_item _ _ _ _).
    assert (Hlev : (levels < length (iarrs w))%nat).
    { apply lookup_lt_is_Some_1. by eexists. }
    assert (Hi : (i < length lv)%nat).
    { apply lookup_lt_is_Some_1. by eexists. }
    rewrite (IH _ (<[i := l1]> lv) l1); cbn [farrs iarrs source rng].
    + rewrite !list_insert_insert_eq. f_equal. f_equal; [|cbn; lia].
      do 2 f_equal. unfold scan_atom, draws. cbn [length seq map zip zip_with foldl].
      fold l1. rewrite Nat.add_0_r. subst l1. cbn [source rng].
      replace (rng w + 0)%nat with (rng w) by lia.
      rewrite Nat.add_0_r, <- seq_shift, map_map.
      do 2 f_equal. apply map_ext. intros j. f_equal. lia.
    + by apply list_lookup_insert_eq.
    + by apply list_lookup_insert_eq.
Qed.

Lemma length_scan_range temperature dt src n :
  forall r a lv, length (scan_range temperature dt src r a n lv) = length lv.
Proof.
  induction n as [|n IH]; intros r a lv; cbn [scan_range]; [done|].
  by rewrite IH, length_insert.
Qed.

Lemma lookup_scan_range temperature dt src n :
  forall r a lv j,
  (a + n <= length lv)%nat ->
  scan_range temperature dt src r a n lv !! j
  = if decide (a <= j < a + n)%nat
    then Some (scan_atom temperature dt transition_probabilities
                 (map (fun q => src (r + 6 * (j - a) + q)%nat) (seq 0 6))
                 (lv !!! j))
    else lv !! j.
Proof.
  induction n as [|n IH]; intros r a lv j Hlen; cbn [scan_range].
  - destruct (decide _); [lia | done].
  - rewrite IH by (rewrite length_insert; lia).
    destruct (decide (S a <= j < S a + n)%nat) as [Hin|Hout].
    + rewrite decide_True by lia.
      rewrite list_lookup_total_insert_ne by lia.
      do 2 f_equal. apply map_ext. intros q. f_equal. lia.
    + destruct (decide (j = a)) as [->|Hne].
      * rewrite decide_True by lia.
        rewrite list_lookup_insert_eq by lia.
        do 2 f_equal. apply map_ext. intros q. f_equal. lia.
      * rewrite decide_False by lia.
        by rewrite list_lookup_insert_ne.
Qed.

Lemma outer_loop levels temperature dt n :
  forall a w lv,
  iarrs w !! levels = Some lv -> (a + n <= length lv)%nat ->
  for_each (seq a n)
    (fun i => for_each transition_probabilities
                (transition_item levels temperature dt i)) w
  = (tt, mkWorld (farrs w)
           (<[levels := scan_range temperature dt (source w) (rng w) a n lv]>
              (iarrs w))
           (source w) (rng w + 6 * n)).
Proof.
  induction n as [|n IH]; intros a w lv Hlv Hlen.
  - cbn. unfold ret. destruct w as [fa ia src r]; cbn in *.
    rewrite Nat.add_0_r. by rewrite list_insert_id.
  - cbn [seq for_each]. unfold bind at 1.
    destruct (lookup_lt_is_Some_2 lv a) as [l Hl]; [lia|].
    rewrite (inner_loop _ _ _ _ _ _ lv l) by done.
    assert (Hlev : (levels < length (iarrs w))%nat).
    { apply lookup_lt_is_Some_1. by eexists. }
    assert (Hdraws : draws w 0 (length transition_probabilities)
                     = map (fun j => source w (rng w + j)%nat) (seq 0 6)).
    { unfold draws. apply map_ext; intros q; f_equal; lia. }
    rewrite Hdraws.
    set (lv1 := <[a := _]> lv).
    rewrite (IH (S a) _ lv1); cbn [farrs iarrs source rng].
    + rewrite list_insert_insert_eq.
      cbn [scan_range length transition_probabilities].
      rewrite (list_lookup_total_correct lv a l) by done.
      fold lv1. do 2 f_equal. lia.
    + by apply list_lookup_insert_eq.
    + unfold lv1. rewrite length_insert. lia.
Qed.

Lemma transition_between_levels_eq levels temperature dt w lv :
  iarrs w !! levels = Some lv ->
  transition_between_levels levels temperature dt w
  = (levels,
     mkWorld (farrs w)
       (<[levels := scan_range temperature dt (source w) (rng w) 0
                      (length lv) lv]> (iarrs w))
       (source w) (rng w + 6 * length lv)).
Proof.
  intros Hlv. unfold transition_between_levels, read_i.
  cbv beta iota zeta delta [bind ret].
  rewrite (list_lookup_total_correct (iarrs w) levels lv) by done.
  by rewrite (outer_loop _ _ _ _ _ _ lv).
Qed.

(** C4 (amended): the call works in place on the levels array; for every
    atom the six table entries are met in the fixed order (0,1), (1,2),
    (2,3), (1,0), (2,1), (3,2), each with a fresh draw of the atom's own
    (the draws 6i .. 6i+5 of the call), and each entry is tested against
    the level the earlier entries of the same scan left behind. Nothing
    stops the scan after a change, so several transitions in one call are
    possible. *)
Theorem transition_scans_whole_table levels temperature dt w lv i l :
  iarrs w !! levels = Some lv -> lv !! i = Some l ->
  let '(res, w') := transition_between_levels levels temperature dt w in
  res = levels /\
  (iarrs w' !!! levels) !! i
  = Some (scan_atom temperature dt transition_probabilities
            (draws w (6 * i) 6) l) /\
  length (iarrs w' !!! levels) = length lv /\
  rng w' = (rng w + 6 * length lv)%nat.
Proof.
  intros Hlv Hl. rewrite (transition_between_levels_eq _ _ _ _ lv) by done.
  cbn [iarrs rng].
  assert (Hlev : (levels < length (iarrs w))%nat).
  { apply lookup_lt_is_Some_1. by eexists. }
  assert (Hi : (i < length lv)%nat).
  { apply lookup_lt_is_Some_1. by eexists. }
  rewrite list_lookup_total_insert_eq by done.
  split; [done|]. split; [|split; [apply length_scan_range | done]].
  rewrite lookup_scan_range by lia. rewrite decide_True by lia.
  rewrite (list_lookup_total_correct lv i l) by done.
  do 2 f_equal. unfold draws. apply map_ext. intros q. f_equal. lia.
Qed.

Lemma transition_scans_whole_table_witness :
  let w := mkWorld [] [[1%Z]] (fun _ => 1e-5) 0 in
  let '(res, w') := transition_between_levels 0%nat 0 1e-4 w in
  res = 0%nat /\
  (iarrs w' !!! 0%nat) !! 0%nat
  = Some (scan_atom 0 1e-4 transition_probabilities
            (draws w (6 * 0) 6) 1%Z) /\
  length (iarrs w' !!! 0%nat) = length [1%Z] /\
  rng w' = (rng w + 6 * length [1%Z])%nat.
Proof.
  intros w.
  apply (transition_scans_whole_table 0%nat 0 1e-4 w [1%Z] 0%nat 1%Z);
    reflexivity.
Defined.

Lemma scan_item_cold dt l start end_ prob u :
  scan_item 0 dt l (((start, end_), prob), u)
  = if Rltb u (prob * dt) && (l =? start)%Z then end_ else l.
Proof.
  unfold scan_item, transition_prob_of. cbn [fst snd].
  replace (- IZR (Z.abs (start - end_)) * 0 / k) with 0
    by (unfold Rdiv; ring).
  by rewrite exp_0, Rmult_1_r.
Qed.

(** C4 (counterexample): one atom at level 1, temperature 0, dt = 1e-4 and
    every uniform draw equal to 1e-5. After the first two table entries the
    atom has moved to level 2; the remaining entries of the same call then
    meet it again and move it back to level 1: two transitions in one
    call. *)
Lemma transition_twice_in_one_call :
  let w := mkWorld [] [[1%Z]] (fun _ => 1e-5) 0 in
  let body := transition_item 0%nat 0 1e-4 0%nat in
  let w1 := snd (for_each (take 2 transition_probabilities) body w) in
  let w2 := snd (for_each (drop 2 transition_probabilities) body w1) in
  iarrs w1 = [[2%Z]] /\ iarrs w2 = [[1%Z]] /\
  snd (transition_between_levels 0%nat 0 1e-4 w) = w2.
Proof.
  intros w body w1 w2.
  assert (Hlo : Rltb 1e-5 (5e-21 * 1e-4) = false) by (apply Rltb_false; lra).
  assert (H12 : Rltb 1e-5 (0.6 * 1e-4) = true) by (apply Rltb_true; lra).
  assert (H10 : Rltb 1e-5 (0.2 * 1e-4) = true) by (apply Rltb_true; lra).
  assert (H21 : Rltb 1e-5 (0.8 * 1e-4) = true) by (apply Rltb_true; lra).
  assert (Hw1 : w1 = mkWorld [] [[2%Z]] (fun _ => 1e-5) 2).
  { unfold w1, body, w. cbn [take transition_probabilities].
    rewrite (inner_loop _ _ _ _ _ _ [1%Z] 1%Z) by done.
    cbn [snd farrs iarrs source rng length]. f_equal.
    unfold scan_atom, draws. cbn [seq map zip zip_with foldl].
    rewrite !scan_item_cold. cbv beta iota delta [source rng].
    rewrite Hlo, H12. reflexivity. }
  assert (Hw2 : w2 = mkWorld [] [[1%Z]] (fun _ => 1e-5) 6).
  { unfold w2. rewrite Hw1. unfold body.
    cbn [drop transition_probabilities].
    rewrite (inner_loop _ _ _ _ _ _ [2%Z] 2%Z) by done.
    cbn [snd farrs iarrs source rng length]. f_equal.
    unfold scan_atom, draws. cbn [seq map zip zip_with foldl].
    rewrite !scan_item_cold. cbv beta iota delta [source rng].
    rewrite Hlo, H10, H21. reflexivity. }
  rewrite Hw1, Hw2. cbn [iarrs]. split; [done|]. split; [done|].
  unfold w. rewrite (transition_between_levels_eq _ _ _ _ [1%Z]) by done.
  cbn [snd farrs iarrs source rng length scan_range]. f_equal.
  unfold scan_atom. cbn [seq map zip zip_with foldl transition_probabilities].
  rewrite !scan_item_cold. cbv beta iota delta [source rng].
  rewrite Hlo, H12, H10, H21. reflexivity.
Qed.

(** ** One time step *)

Lemma scattering_force_world v delta I r dw dm w :
  snd (scattering_force v delta I r dw dm w) = advance 2 w.
Proof.
  unfold scattering_force, np_random_normal, bind, draw, ret, advance.
  cbn. f_equal. lia.
Qed.

Lemma step_forces_eq I vp :
  forall w,
  snd (step_forces I vp w) = advance (2 * length vp) w /\
  length (fst (step_forces I vp w)) = length vp.
Proof.
  unfold step_forces.
  induction vp as [|x vp IH]; intros w.
  - cbn. by rewrite advance_0.
  - destruct (scattering_force (fst x) 0 I (snd x) wavelength_fluctuation
                magnetic_fluctuation w) as [f w1] eqn:Hf.
    assert (Hw1 : w1 = advance 2 w).
    { by rewrite <- (scattering_force_world (fst x) 0 I (snd x)
                      wavelength_fluctuation magnetic_fluctuation w), Hf. }
    destruct (IH w1) as [IHw IHl].
    destruct (mapM _ vp w1) as [fs w2] eqn:Hfs. cbn [fst snd] in IHw, IHl.
    cbn [mapM]. unfold bind. rewrite Hf, Hfs. unfold ret.
    cbn [fst snd length]. split; [|by f_equal].
    rewrite IHw, Hw1, advance_advance. f_equal. lia.
Qed.

Lemma mot_step_eq dt st w :
  (levels st < length (iarrs w))%nat ->
  let I := P_laser * (1 + (0 + power_fluctuation * source w (rng w)))
           / (pi * (beam_diameter / 2) ^ 2) in
  let vp := zip (farrs w !!! velocities st) (farrs w !!! positions st) in
  let forces := fst (step_forces I vp (advance 1 w)) in
  let fa := euler_farrs dt st (farrs w) forces in
  let vs := fa !!! velocities st in
  let ps := fa !!! positions st in
  let T := trapped_temperature ps vs in
  let lv := iarrs w !!! levels st in
  let n := length lv in
  let r1 := (rng w + 1 + 2 * length vp)%nat in
  let w3 := mkWorld fa (iarrs w) (source w) r1 in
  let lv1 := repumper_result repumper_intensity T lv vs
               (draws w3 1 n) (draws w3 (1 + n) n) in
  let r2 := (r1 + 1 + n + n)%nat in
  let lv2 := scan_range T dt (source w) r2 0 (length lv1) lv1 in
  mot_step dt st w
  = (mkLocals (velocities st) (positions st) (length (iarrs w)) T
       (velocities_to_avg st ++ [velocities st])
       (positions_to_avg st ++ [positions st])
       (temperatures st ++ [T])
       (velocity_distributions st ++ [level_velocities lv vs])
       (levels_distributions st
        ++ [np_true_divide (np_bincount lv2 4)
              (np_sum_i (np_bincount lv2 4))]),
     mkWorld fa (iarrs w ++ [lv2]) (source w) (r2 + 6 * length lv1)).
Proof.
  intros Hlev I vp forces fa vs ps T lv n r1 w3 lv1 r2 lv2.
  unfold mot_step.
  cbv beta iota zeta delta [bind ret read_f read_i write_f np_random_normal draw].
  cbn [farrs iarrs source rng].
  fold I. fold vp. fold (step_forces I vp).
  replace (mkWorld (farrs w) (iarrs w) (source w) (S (rng w)))
    with (advance 1 w) by (unfold advance; f_equal; lia).
  destruct (step_forces_eq I vp (advance 1 w)) as [Hw2 Hlen].
  fold forces in Hlen.
  destruct (step_forces I vp (advance 1 w)) as [forces' w2] eqn:Hsf.
  cbn [fst snd] in Hw2. subst forces. cbn [fst] in *.
  subst w2. rewrite advance_advance. cbn [advance farrs iarrs source rng].
  fold (euler_farrs dt st (farrs w) forces'). fold fa. fold vs. fold ps. fold T.
  rewrite repumper_unfold by done.
  cbn [farrs iarrs source rng].
  replace (rng w + (1 + 2 * length vp))%nat with r1 by (unfold r1; lia).
  fold lv. fold n. fold w3. fold lv1. fold r2.
  rewrite (transition_between_levels_eq _ _ _ _ lv1)
    by (cbn [iarrs]; by apply list_lookup_middle).
  cbn [farrs iarrs source rng].
  rewrite insert_snoc, lookup_total_snoc. fold lv2.
  reflexivity.
Qed.

(** ** Initial draws *)

Lemma choice_level_range u : (0 <= choice_level u <= 3)%Z.
Proof. unfold choice_level. repeat destruct (Rltb _ _); lia. Qed.

Lemma init_ensemble_eq n w :
  exists vs ps ls,
    length vs = n /\ length ps = n /\ length ls = n /\
    Forall (fun l => (0 <= l <= 3)%Z) ls /\
    init_ensemble n w
    = (mkLocals (length (farrs w)) (S (length (farrs w))) (length (iarrs w))
         T0 [] [] [] [] [],
       mkWorld (farrs w ++ [vs; ps]) (iarrs w ++ [ls]) (source w)
         (rng w + 3 * n)).
Proof.
  unfold init_ensemble, np_random_normal_n, np_random_uniform_n,
    np_random_choice_n.
  cbv beta iota zeta delta [bind].
  rewrite (replicateM_draw (fun z => 0 + sqrt (k * T0 / mass_Rb) * z))
    by (intros w0; unfold np_random_normal, bind, draw, ret, advance;
        by rewrite Nat.add_1_r).
  cbv beta iota zeta delta [alloc_f].
  rewrite (replicateM_draw (fun u => - beam_radius
                                     + (beam_radius - - beam_radius) * u))
    by (intros w0; unfold bind, draw, ret, advance; by rewrite Nat.add_1_r).
  cbv beta iota zeta delta [alloc_f alloc_i].
  rewrite (replicateM_draw choice_level)
    by (intros w0; unfold bind, draw, ret, advance; by rewrite Nat.add_1_r).
  cbv beta iota zeta delta [alloc_i ret advance farrs iarrs source rng].
  eexists _, _, _. split; [|split; [|split; [|split; [|]]]]; cycle 4.
  - f_equal.
    + f_equal. rewrite length_app. cbn. lia.
    + f_equal; [by rewrite <- app_assoc | lia].
  - by rewrite length_map, length_seq.
  - by rewrite length_map, length_seq.
  - by rewrite length_map, length_seq.
  - apply Forall_fmap, Forall_true. intros i. apply choice_level_range.
Qed.

Lemma init_ensemble_shape n w :
  let '(st, w') := init_ensemble n w in
  shape_ok n st w' /\ levels_distributions st = [] /\ temperatures st = [] /\
  positions_to_avg st = [] /\ velocities_to_avg st = [] /\
  velocity_distributions st = [] /\
  rng w' = (rng w + 3 * n)%nat /\
  length (farrs w') = (length (farrs w) + 2)%nat /\
  length (iarrs w') = (length (iarrs w) + 1)%nat.
Proof.
  destruct (init_ensemble_eq n w) as (vs & ps & ls & Hvs & Hps & Hls & Hr & ->).
  cbn [levels_distributions temperatures positions_to_avg velocities_to_avg
       velocity_distributions rng farrs iarrs].
  rewrite !length_app. cbn [length].
  repeat split; try done; unfold shape_ok;
    cbn [velocities positions levels farrs iarrs].
  - rewrite length_app. cbn. lia.
  - rewrite length_app. cbn. lia.
  - rewrite length_app. cbn. lia.
  - rewrite lookup_total_app_r by lia. by rewrite Nat.sub_diag.
  - rewrite lookup_total_app_r by lia.
    by replace (S (length (farrs w)) - length (farrs w))%nat with 1%nat by lia.
  - by rewrite lookup_total_snoc.
  - by rewrite lookup_total_snoc.
Qed.

(** ** Shapes are preserved by a time step *)

Lemma euler_farrs_shape n dt st fa forces :
  (velocities st < length fa)%nat -> (positions st < length fa)%nat ->
  length (fa !!! velocities st) = n -> length (fa !!! positions st) = n ->
  length forces = n ->
  length (euler_farrs dt st fa forces) = length fa /\
  length (euler_farrs dt st fa forces !!! velocities st) = n /\
  length (euler_farrs dt st fa forces !!! positions st) = n.
Proof.
  intros Hv Hp Hlv Hlp Hf. unfold euler_farrs.
  set (v1 := zip_with Rplus (fa !!! velocities st) _).
  assert (Hv1 : length v1 = n).
  { unfold v1. rewrite length_zip_with, length_map. lia. }
  set (fa1 := <[velocities st := v1]> fa).
  assert (Hfa1 : length fa1 = length fa) by apply length_insert.
  assert (Hfa1v : length (fa1 !!! velocities st) = n).
  { unfold fa1. by rewrite list_lookup_total_insert_eq. }
  assert (Hfa1p : length (fa1 !!! positions st) = n).
  { unfold fa1. rewrite list_lookup_total_insert.
    destruct (decide _); done. }
  set (p1 := zip_with Rplus (fa1 !!! positions st) _).
  assert (Hp1 : length p1 = n).
  { unfold p1. rewrite length_zip_with, length_map. lia. }
  rewrite length_insert. split; [done|].
  rewrite !list_lookup_total_insert. split; destruct (decide _); done.
Qed.

Lemma length_repumper_result I_repumper temperature lv vs us us' :
  length vs = length lv -> length us = length lv -> length us' = length lv ->
  length (repumper_result I_repumper temperature lv vs us us') = length lv.
Proof.
  intros Hvs Hus Hus'. unfold repumper_result, assign_mask.
  repeat (rewrite length_zip_with || rewrite length_map). lia.
Qed.

Lemma repumper_result_range I_repumper temperature lv vs us us' :
  length vs = length lv -> length us = length lv -> length us' = length lv ->
  Forall (fun l => (0 <= l <= 3)%Z) lv ->
  Forall (fun l => (0 <= l <= 3)%Z)
    (repumper_result I_repumper temperature lv vs us us').
Proof.
  intros Hvs Hus Hus' Hr. apply Forall_lookup. intros i x Hx.
  assert (Hi : (i < length lv)%nat).
  { rewrite <- (length_repumper_result I_repumper temperature lv vs us us')
      by done. apply lookup_lt_is_Some_1. by eexists. }
  destruct (lookup_lt_is_Some_2 lv i) as [l Hl]; [done|].
  destruct (lookup_lt_is_Some_2 vs i) as [v Hv]; [lia|].
  destruct (lookup_lt_is_Some_2 us i) as [u Hu]; [lia|].
  destruct (lookup_lt_is_Some_2 us' i) as [u' Hu']; [lia|].
  rewrite (lookup_repumper_result _ _ _ _ _ _ _ l v u u') in Hx by done.
  assert (Hlr := proj1 (Forall_lookup _ _) Hr i l Hl). cbn in Hlr.
  injection Hx as <-.
  destruct (_ && Rltb u' _); [lia|]. destruct (_ && Rltb u _); lia.
Qed.

Lemma scan_atom_range temperature dt table :
  Forall (fun item : (Z * Z) * R => (0 <= snd (fst item) <= 3)%Z) table ->
  forall us l, (0 <= l <= 3)%Z ->
  (0 <= scan_atom temperature dt table us l <= 3)%Z.
Proof.
  unfold scan_atom. induction 1 as [|item table Hitem _ IH]; intros us l Hl.
  - done.
  - destruct us as [|u us]; [done|]. cbn [zip zip_with foldl].
    apply IH. unfold scan_item. destruct (_ && _); done.
Qed.

Lemma transition_probabilities_range :
  Forall (fun item : (Z * Z) * R => (0 <= snd (fst item) <= 3)%Z)
    transition_probabilities.
Proof. unfold transition_probabilities. repeat constructor; cbn; lia. Qed.

Lemma scan_range_range temperature dt src r lv :
  Forall (fun l => (0 <= l <= 3)%Z) lv ->
  Forall (fun l => (0 <= l <= 3)%Z)
    (scan_range temperature dt src r 0 (length lv) lv).
Proof.
  intros Hr. apply Forall_lookup. intros i x Hx.
  rewrite lookup_scan_range in Hx by lia.
  destruct (decide _) as [Hin|Hout].
  - injection Hx as <-.
    apply scan_atom_range; [apply transition_probabilities_range|].
    destruct (lookup_lt_is_Some_2 lv i) as [l Hl]; [lia|].
    rewrite (list_lookup_total_correct lv i l) by done.
    apply (proj1 (Forall_lookup _ _) Hr i l Hl).
  - apply (proj1 (Forall_lookup _ _) Hr i x Hx).
Qed.

(** ** Level populations *)

Lemma foldr_max_range lv :
  Forall (fun l => (0 <= l <= 3)%Z) lv -> (0 <= foldr Z.max 0%Z lv <= 3)%Z.
Proof. induction 1; cbn; lia. Qed.

Lemma np_bincount_4 lv :
  Forall (fun l => (0 <= l <= 3)%Z) lv ->
  np_bincount lv 4
  = map (fun b => Z.of_nat (count_eq (Z.of_nat b) lv)) (seq 0 4).
Proof.
  intros Hr. unfold np_bincount. destruct lv as [|l lv]; [done|].
  assert (Hm := foldr_max_range _ Hr).
  replace (Nat.max 4 (S (Z.to_nat (foldr Z.max 0%Z (l :: lv))))) with 4%nat
    by lia.
  done.
Qed.

Lemma count_eq_total lv :
  Forall (fun l => (0 <= l <= 3)%Z) lv ->
  (count_eq 0%Z lv + count_eq 1%Z lv + count_eq 2%Z lv + count_eq 3%Z lv)%nat
  = length lv.
Proof.
  unfold count_eq. induction 1 as [|l lv Hl _ IH]; [done|].
  rewrite !filter_cons. cbn [length]. rewrite <- IH.
  repeat destruct (decide _); cbn [length]; lia.
Qed.

Lemma population_of_levels lv :
  Forall (fun l => (0 <= l <= 3)%Z) lv -> (0 < length lv)%nat ->
  population_ok (np_true_divide (np_bincount lv 4)
                   (np_sum_i (np_bincount lv 4))).
Proof.
  intros Hr Hn. rewrite np_bincount_4 by done.
  assert (Ht := count_eq_total lv Hr).
  cbn [seq map np_sum_i foldr np_true_divide].
  change (Z.of_nat 0) with 0%Z. change (Z.of_nat 1) with 1%Z.
  change (Z.of_nat 2) with 2%Z. change (Z.of_nat 3) with 3%Z.
  set (c0 := count_eq 0%Z lv) in *. set (c1 := count_eq 1%Z lv) in *.
  set (c2 := count_eq 2%Z lv) in *. set (c3 := count_eq 3%Z lv) in *.
  set (t := (Z.of_nat c0 + (Z.of_nat c1 + (Z.of_nat c2 + (Z.of_nat c3 + 0))))%Z).
  assert (Htz : t = Z.of_nat (length lv)) by (unfold t; lia).
  assert (Hne : (t =? 0)%Z = false) by (apply Z.eqb_neq; lia).
  rewrite Hne.
  exists [IZR (Z.of_nat c0) / IZR t; IZR (Z.of_nat c1) / IZR t;
          IZR (Z.of_nat c2) / IZR t; IZR (Z.of_nat c3) / IZR t].
  split; [done|]. split; [done|].
  assert (HtR : IZR t <> 0) by (apply not_0_IZR; lia).
  replace (Rsum _ - 1) with 0.
  - rewrite Rabs_R0. lra.
  - unfold Rsum. cbn [foldr].
    assert (Hsum : IZR t = IZR (Z.of_nat c0) + IZR (Z.of_nat c1)
                           + IZR (Z.of_nat c2) + IZR (Z.of_nat c3)).
    { unfold t. rewrite !plus_IZR. lra. }
    field_simplify_eq; [|done]. rewrite Hsum. ring.
Qed.

Lemma mot_step_shape n dt st w :
  shape_ok n st w ->
  let '(st', w') := mot_step dt st w in
  shape_ok n st' w' /\
  velocities st' = velocities st /\ positions st' = positions st /\
  (exists d, levels_distributions st' = levels_distributions st ++ [d] /\
             ((0 < n)%nat -> population_ok d)) /\
  temperatures st'
  = temperatures st
    ++ [trapped_temperature (farrs w' !!! positions st)
          (farrs w' !!! velocities st)] /\
  T_avg_trapped st'
  = trapped_temperature (farrs w' !!! positions st)
      (farrs w' !!! velocities st) /\
  positions_to_avg st' = positions_to_avg st ++ [positions st] /\
  velocities_to_avg st' = velocities_to_avg st ++ [velocities st] /\
  length (velocity_distributions st') = S (length (velocity_distributions st)) /\
  length (farrs w') = length (farrs w) /\
  length (iarrs w') = S (length (iarrs w)) /\
  (rng w < rng w')%nat.
Proof.
  intros (Hv & Hp & Hl & Hlv & Hlp & Hll & Hr).
  rewrite mot_step_eq by done. cbv zeta.
  set (I := P_laser * _ / _).
  set (vp := zip (farrs w !!! velocities st) (farrs w !!! positions st)).
  set (forces := fst (step_forces I vp (advance 1 w))).
  assert (Hvp : length vp = n).
  { unfold vp. rewrite length_zip_with. lia. }
  assert (Hf : length forces = n).
  { unfold forces. by rewrite (proj2 (step_forces_eq I vp (advance 1 w))). }
  destruct (euler_farrs_shape n dt st (farrs w) forces)
    as (Hfa & Hfav & Hfap); try done.
  set (fa := euler_farrs dt st (farrs w) forces) in *.
  set (T := trapped_temperature _ _).
  set (lv := iarrs w !!! levels st) in *.
  set (lv1 := repumper_result _ _ _ _ _ _).
  assert (Hlv1 : length lv1 = n).
  { unfold lv1. rewrite length_repumper_result; rewrite ?length_draws; lia. }
  assert (Hr1 : Forall (fun l => (0 <= l <= 3)%Z) lv1).
  { unfold lv1. apply repumper_result_range; rewrite ?length_draws;
      done || lia. }
  set (lv2 := scan_range _ _ _ _ _ _ lv1).
  assert (Hlv2 : length lv2 = n).
  { unfold lv2. by rewrite length_scan_range. }
  assert (Hr2 : Forall (fun l => (0 <= l <= 3)%Z) lv2).
  { unfold lv2. by apply scan_range_range. }
  cbn [velocities positions levels levels_distributions temperatures
       T_avg_trapped positions_to_avg velocities_to_avg
       velocity_distributions farrs iarrs rng].
  split; [|repeat split; try done].
  - unfold shape_ok. cbn [velocities positions levels farrs iarrs].
    rewrite lookup_total_snoc, length_app. cbn [length].
    repeat split; try done; lia.
  - eexists. split; [done|]. intros Hn.
    apply population_of_levels; [done | lia].
  - rewrite length_app. cbn. lia.
  - rewrite length_app. cbn. lia.
  - lia.
Qed.

(** ** The time loop *)

Lemma run_steps_app ts1 ts2 dt :
  forall st w,
  run_steps (ts1 ++ ts2) dt st w
  = let '(st1, w1) := run_steps ts1 dt st w in run_steps ts2 dt st1 w1.
Proof.
  induction ts1 as [|t ts1 IH]; intros st w; [done|].
  cbn [app run_steps]. unfold bind.
  destruct (mot_step dt st w) as [st0 w0]. apply IH.
Qed.

Lemma run_steps_shape n dt ts :
  forall st w,
  shape_ok n st w ->
  let '(st', w') := run_steps ts dt st w in
  shape_ok n st' w' /\
  velocities st' = velocities st /\ positions st' = positions st /\
  (exists ds, levels_distributions st' = levels_distributions st ++ ds /\
              length ds = length ts /\
              ((0 < n)%nat -> Forall population_ok ds)) /\
  length (temperatures st') = (length (temperatures st) + length ts)%nat /\
  positions_to_avg st'
  = positions_to_avg st ++ replicate (length ts) (positions st) /\
  velocities_to_avg st'
  = velocities_to_avg st ++ replicate (length ts) (velocities st) /\
  length (velocity_distributions st')
  = (length (velocity_distributions st) + length ts)%nat /\
  length (farrs w') = length (farrs w) /\
  length (iarrs w') = (length (iarrs w) + length ts)%nat /\
  (rng w + length ts <= rng w')%nat.
Proof.
  induction ts as [|t ts IH]; intros st w Hs.
  - cbn. unfold ret. rewrite !app_nil_r, !Nat.add_0_r.
    do 3 (split; [done|]). split.
    { exists []. by rewrite app_nil_r. }
    repeat split; done.
  - cbn [run_steps]. unfold bind.
    assert (H1 := mot_step_shape n dt st w Hs).
    destruct (mot_step dt st w) as [st1 w1].
    destruct H1 as (Hs1 & Hv1 & Hp1 & (d & Hd & Hdok) & Ht1 & _ & Hpa1 & Hva1
                    & Hvd1 & Hfa1 & Hia1 & Hrng1).
    assert (H2 := IH st1 w1 Hs1).
    destruct (run_steps ts dt st1 w1) as [st2 w2].
    destruct H2 as (Hs2 & Hv2 & Hp2 & (ds & Hds & Hdsl & Hdsok) & Ht2 & Hpa2
                    & Hva2 & Hvd2 & Hfa2 & Hia2 & Hrng2).
    cbn [length replicate]. split; [done|].
    split; [congruence|]. split; [congruence|]. split.
    { exists (d :: ds). rewrite Hds, Hd, <- app_assoc. cbn.
      split; [done|]. split; [by rewrite Hdsl|].
      intros Hn. constructor; auto. }
    split. { rewrite Ht2, Ht1, length_app. cbn. lia. }
    split. { rewrite Hpa2, Hpa1, Hp1, <- app_assoc. done. }
    split. { rewrite Hva2, Hva1, Hv1, <- app_assoc. done. }
    split; [lia|]. split; [congruence|]. split; lia.
Qed.

Lemma run_from_init_shape n ts dt w :
  let '(st, w') := run_from_init n ts dt w in
  shape_ok n st w' /\
  length (levels_distributions st) = length ts /\
  ((0 < n)%nat -> Forall population_ok (levels_distributions st)) /\
  length (temperatures st) = length ts /\
  positions_to_avg st = replicate (length ts) (positions st) /\
  velocities_to_avg st = replicate (length ts) (velocities st) /\
  length (velocity_distributions st) = length ts /\
  length (farrs w') = (length (farrs w) + 2)%nat /\
  length (iarrs w') = (length (iarrs w) + 1 + length ts)%nat /\
  (rng w + 3 * n + length ts <= rng w')%nat.
Proof.
  unfold run_from_init, bind.
  assert (H0 := init_ensemble_shape n w).
  destruct (init_ensemble n w) as [st0 w0].
  destruct H0 as (Hs0 & Hd0 & Ht0 & Hp0 & Hv0 & Hvd0 & Hr0 & Hfa0 & Hia0).
  assert (H1 := run_steps_shape n dt ts st0 w0 Hs0).
  destruct (run_steps ts dt st0 w0) as [st w'].
  destruct H1 as (Hs & Hv & Hp & (ds & Hds & Hdsl & Hdsok) & Ht & Hpa & Hva
                  & Hvd & Hfa & Hia & Hrng).
  rewrite Hd0 in Hds. rewrite Ht0 in Ht. rewrite Hp0 in Hpa.
  rewrite Hv0 in Hva. rewrite Hvd0 in Hvd. cbn in Hds, Ht, Hpa, Hva, Hvd.
  split; [done|].
  rewrite Hds, Hpa, Hva, Hp, Hv.
  repeat split; try done; lia.
Qed.

(** C8: in a run of [n_atoms >= 1] atoms, after any number of time steps
    (the time points [ts] processed so far, see [run_steps_app]) the
    positions, velocities and levels arrays all hold [n_atoms] entries, and
    every level-population vector recorded so far consists of four
    fractions whose sum is 1 (exactly, so within 1e-9). *)
Theorem run_conserves_atoms (n_atoms : Z) (ts : list R) (dt : R) (w : world) :
  (1 <= n_atoms)%Z ->
  let '(st, w') := run_from_init (Z.to_nat n_atoms) ts dt w in
  length (farrs w' !!! positions st) = Z.to_nat n_atoms /\
  length (farrs w' !!! velocities st) = Z.to_nat n_atoms /\
  length (iarrs w' !!! levels st) = Z.to_nat n_atoms /\
  length (levels_distributions st) = length ts /\
  Forall population_ok (levels_distributions st).
Proof.
  intros Hn.
  assert (H := run_from_init_shape (Z.to_nat n_atoms) ts dt w).
  destruct (run_from_init (Z.to_nat n_atoms) ts dt w) as [st w'].
  destruct H as ((_ & _ & _ & Hlv & Hlp & Hll & _) & Hd & Hok & _).
  repeat split; try done. apply Hok. lia.
Qed.

Lemma run_conserves_atoms_witness :
  let '(st, w') :=
    run_from_init (Z.to_nat 2) [0; 1e-4] 1e-4 (constant_world 0) in
  length (farrs w' !!! positions st) = Z.to_nat 2 /\
  length (farrs w' !!! velocities st) = Z.to_nat 2 /\
  length (iarrs w' !!! levels st) = Z.to_nat 2 /\
  length (levels_distributions st) = length [0; 1e-4] /\
  Forall population_ok (levels_distributions st).
Proof.
  apply (run_conserves_atoms 2 [0; 1e-4] 1e-4 (constant_world 0)). lia.
Defined.

(** ** Trapped-atom temperature *)

Lemma np_take_trapped ps :
  forall vs,
  np_take vs (map (fun p => Rltb (Rabs p) beam_radius) ps)
  = trapped_speeds ps vs.
Proof.
  unfold np_take, trapped_speeds.
  induction ps as [|p ps IH]; intros [|v vs]; try done.
  cbn [map zip zip_with]. rewrite !filter_cons. cbn [fst snd].
  unfold Rltb. destruct (Rlt_dec (Rabs p) beam_radius) as [Hlt|Hge].
  - rewrite decide_True by done. rewrite (decide_True (P := _ < _)) by done.
    cbn [map fst snd]. f_equal. apply IH.
  - rewrite decide_False by (cbn; tauto).
    rewrite (decide_False (P := _ < _)) by done. apply IH.
Qed.

Lemma trapped_speeds_nil ps :
  forall vs,
  (forall p, p ∈ ps -> ~ Rabs p < beam_radius) -> trapped_speeds ps vs = [].
Proof.
  unfold trapped_speeds.
  induction ps as [|p ps IH]; intros [|v vs] Hout; try done.
  cbn [zip zip_with]. rewrite filter_cons. cbn [fst].
  rewrite decide_False by (apply Hout, elem_of_cons; by left).
  apply IH. intros q Hq. apply Hout, elem_of_cons. by right.
Qed.

Lemma Rsum_nonneg xs : Forall (fun x => 0 <= x) xs -> 0 <= Rsum xs.
Proof. unfold Rsum. induction 1; cbn; lra. Qed.

Lemma k_pos : 0 < k.
Proof. unfold k. lra. Qed.

Lemma mass_Rb_pos : 0 < mass_Rb.
Proof. unfold mass_Rb. lra. Qed.

Lemma trapped_temperature_spec ps vs :
  let tv := trapped_speeds ps vs in
  (tv <> [] ->
   trapped_temperature ps vs
   = Rsum (map (fun v => mass_Rb * v ^ 2) tv) / INR (length tv) / k) /\
  (tv = [] -> trapped_temperature ps vs = 0) /\
  ((forall p, p ∈ ps -> ~ Rabs p < beam_radius) ->
   trapped_temperature ps vs = 0) /\
  0 <= trapped_temperature ps vs.
Proof.
  intros tv. unfold trapped_temperature. rewrite np_take_trapped. fold tv.
  assert (Hempty : tv = [] -> (if (0 <? length tv)%nat
            then np_mean (map (fun v => mass_Rb * v ^ 2) tv) / k else 0) = 0).
  { by intros ->. }
  split; [|split; [done|split]].
  - intros Hne. destruct tv as [|v tv']; [done|]. cbn [length Nat.ltb Nat.leb].
    unfold np_mean. by rewrite length_map.
  - intros Hout. apply Hempty. by apply trapped_speeds_nil.
  - destruct tv as [|v tv']; [cbn; lra|]. cbn [length Nat.ltb Nat.leb].
    unfold np_mean. apply Rmult_le_pos; [|left; apply Rinv_0_lt_compat, k_pos].
    apply Rmult_le_pos.
    + apply Rsum_nonneg, Forall_fmap, Forall_true. intros x. cbn.
      assert (Hm := mass_Rb_pos). nra.
    + left. apply Rinv_0_lt_compat. rewrite length_map.
      apply lt_0_INR. cbn. lia.
Qed.

(** C7: at every time step of every run, the temperature appended to the
    record is the mean of m v^2 over exactly the atoms whose position lies
    inside the beam radius, divided by k_B; it is never negative, and it is
    the number 0 when no atom lies inside the beam radius. A step of a run
    is [mot_step] applied to the state a run of [n] atoms has reached over
    the earlier time points [ts] (see [run_steps_app]); positions and
    velocities are the arrays as that step leaves them. *)
Theorem trapped_temperature_recorded (n : nat) (ts : list R) (dt : R)
    (w : world) :
  let '(st, w1) := run_from_init n ts dt w in
  let '(st', w2) := mot_step dt st w1 in
  let ps := farrs w2 !!! positions st' in
  let vs := farrs w2 !!! velocities st' in
  let tv := trapped_speeds ps vs in
  exists T,
    temperatures st' = temperatures st ++ [T] /\
    (tv <> [] ->
     T = Rsum (map (fun v => mass_Rb * v ^ 2) tv) / INR (length tv) / k) /\
    ((forall p, p ∈ ps -> ~ Rabs p < beam_radius) -> T = 0) /\
    0 <= T.
Proof.
  assert (H0 := run_from_init_shape n ts dt w).
  destruct (run_from_init n ts dt w) as [st w1].
  destruct H0 as (Hs & _).
  assert (H1 := mot_step_shape n dt st w1 Hs).
  destruct (mot_step dt st w1) as [st' w2].
  destruct H1 as (_ & Hv & Hp & _ & Ht & _).
  cbv zeta. rewrite Hv, Hp. eexists. split; [exact Ht|].
  destruct (trapped_temperature_spec (farrs w2 !!! positions st)
              (farrs w2 !!! velocities st)) as (Hmean & _ & Hzero & Hpos).
  done.
Qed.

(** ** Runs and their accumulation *)

Lemma run_from_init_refs n ts dt w :
  let '(st, w') := run_from_init n ts dt w in
  velocities st = length (farrs w) /\ positions st = S (length (farrs w)).
Proof.
  unfold run_from_init, bind.
  destruct (init_ensemble_eq n w) as (vs & ps & ls & _ & _ & _ & _ & Heq).
  assert (H0 := init_ensemble_shape n w).
  rewrite Heq in *. destruct H0 as (Hs0 & _).
  assert (H1 := run_steps_shape n dt ts _ _ Hs0).
  destruct (run_steps ts dt _ _) as [st w'].
  destruct H1 as (_ & Hv & Hp & _). by rewrite Hv, Hp.
Qed.

Lemma run_from_init_nil n dt w :
  snd (run_from_init n [] dt w) = snd (init_ensemble n w).
Proof.
  unfold run_from_init, bind. by destruct (init_ensemble n w).
Qed.

Lemma run_once_eq n_atoms time_max dt w :
  dt <> 0 -> (0 <= n_atoms)%Z ->
  run_once n_atoms time_max dt w
  = Ok (np_arange 0 time_max dt,
        fst (run_from_init (Z.to_nat n_atoms) (np_arange 0 time_max dt) dt w))
       (snd (run_from_init (Z.to_nat n_atoms) (np_arange 0 time_max dt) dt w)).
Proof.
  intros Hdt Hn. unfold run_once.
  destruct (Req_dec_T dt 0) as [|_]; [done|].
  rewrite (proj2 (Z.ltb_ge n_atoms 0)) by done.
  change (bind (init_ensemble (Z.to_nat n_atoms))
            (fun st0 => run_steps (np_arange 0 time_max dt) dt st0) w)
    with (run_from_init (Z.to_nat n_atoms) (np_arange 0 time_max dt) dt w).
  by destruct (run_from_init _ _ _ _).
Qed.

Lemma simulate_runs_ok n_atoms time_max dt n :
  dt <> 0 -> (0 <= n_atoms)%Z ->
  forall acc w,
  let steps := length (np_arange 0 time_max dt) in
  exists acc' w',
    simulate_runs n n_atoms time_max dt acc w = Ok acc' w' /\
    positions_all acc'
    = positions_all acc
      ++ map (fun r => replicate steps (length (farrs w) + 2 * r + 1)%nat)
             (seq 0 n) /\
    velocities_all acc'
    = velocities_all acc
      ++ map (fun r => replicate steps (length (farrs w) + 2 * r)%nat)
             (seq 0 n) /\
    (exists tl, temperatures_all acc' = temperatures_all acc ++ tl /\
                length tl = n /\ Forall (fun t => length t = steps) tl) /\
    (exists pl, level_populations_all acc' = level_populations_all acc ++ pl /\
                length pl = n /\ Forall (fun t => length t = steps) pl) /\
    (exists vl, velocity_distributions_all acc'
                = velocity_distributions_all acc ++ vl /\
                length vl = n /\ Forall (fun t => length t = steps) vl) /\
    ((0 < n)%nat -> times_last acc' = np_arange 0 time_max dt) /\
    length (farrs w') = (length (farrs w) + 2 * n)%nat /\
    (steps = 0%nat -> w' = snd (init_only n (Z.to_nat n_atoms) w)).
Proof.
  intros Hdt Hn. induction n as [|n IH]; intros acc w steps.
  - exists acc, w. cbn. rewrite !app_nil_r, Nat.add_0_r.
    do 3 (split; [done|]).
    do 3 (split; [exists []; by rewrite app_nil_r|]).
    split; [lia|]. done.
  - cbn [simulate_runs]. rewrite run_once_eq by done.
    set (ts := np_arange 0 time_max dt) in *.
    assert (Hshape := run_from_init_shape (Z.to_nat n_atoms) ts dt w).
    assert (Hrefs := run_from_init_refs (Z.to_nat n_atoms) ts dt w).
    assert (Hnil := run_from_init_nil (Z.to_nat n_atoms) dt w).
    destruct (run_from_init (Z.to_nat n_atoms) ts dt w) as [st w1] eqn:Hrun.
    destruct Hshape as (_ & Hld & _ & Htl & Hpa & Hva & Hvd & Hfa & _).
    destruct Hrefs as (Hv & Hp). cbn [fst snd].
    edestruct (IH (mkLists ts (positions_all acc ++ [positions_to_avg st])
                    (velocities_all acc ++ [velocities_to_avg st])
                    (temperatures_all acc ++ [temperatures st])
                    (velocity_distributions_all acc ++ [velocity_distributions st])
                    (level_populations_all acc ++ [levels_distributions st])) w1)
      as (acc' & w' & Heq & Hpos & Hvel & (tl & Htl1 & Htl2 & Htl3)
          & (pl & Hpl1 & Hpl2 & Hpl3) & (vl & Hvl1 & Hvl2 & Hvl3)
          & Htimes & Hfa' & Hinit).
    exists acc', w'. split; [exact Heq|].
    cbn [positions_all velocities_all temperatures_all
         velocity_distributions_all level_populations_all times_last] in *.
    split.
    { rewrite Hpos, <- app_assoc. f_equal. cbn [seq map app].
      rewrite Hpa, Hp. f_equal; [f_equal; lia|].
      rewrite <- seq_shift, map_map. apply map_ext. intros r.
      f_equal. lia. }
    split.
    { rewrite Hvel, <- app_assoc. f_equal. cbn [seq map app].
      rewrite Hva, Hv. f_equal; [f_equal; lia|].
      rewrite <- seq_shift, map_map. apply map_ext. intros r.
      f_equal. lia. }
    split.
    { exists (temperatures st :: tl). rewrite Htl1, <- app_assoc.
      split; [done|]. split; [cbn; lia|]. by constructor. }
    split.
    { exists (levels_distributions st :: pl). rewrite Hpl1, <- app_assoc.
      split; [done|]. split; [cbn; lia|]. by constructor. }
    split.
    { exists (velocity_distributions st :: vl). rewrite Hvl1, <- app_assoc.
      split; [done|]. split; [cbn; lia|]. by constructor. }
    split.
    { intros _. destruct n as [|n']; [|apply Htimes; lia].
      cbn in Heq. by injection Heq as <- _. }
    split; [lia|].
    intros Hz. rewrite (Hinit Hz). cbn [init_only]. unfold bind.
    assert (Hts : ts = []) by (by apply nil_length_inv).
    rewrite Hts in Hrun. rewrite Hrun in Hnil.
    cbn [snd] in Hnil. rewrite Hnil.
    by destruct (init_ensemble (Z.to_nat n_atoms) w).
Qed.

(** ** The whole simulation *)

Lemma length_np_arange start stop step :
  length (np_arange start stop step)
  = Z.to_nat (Zceil ((stop - start) / step)).
Proof. unfold np_arange. by rewrite length_map, length_seq. Qed.

Lemma np_arange_empty time_max dt :
  time_max / dt <= 0 -> np_arange 0 time_max dt = [].
Proof.
  intros Hle. apply nil_length_inv. rewrite length_np_arange, Rminus_0_r.
  destruct (Zceil_bound (time_max / dt)) as [Hlo _].
  assert (Hlt : (Zceil (time_max / dt) < 1)%Z) by (apply lt_IZR; lra).
  lia.
Qed.

Lemma length_np_mean_axis0_2d {T} `{Arith T} `{Inhabited T}
    (a : list (list T)) :
  length (np_mean_axis0_2d a) = ncols a.
Proof. unfold np_mean_axis0_2d. by rewrite length_map, length_seq. Qed.

Lemma simulate_mot_ok n_atoms time_max dt n_simulations w :
  dt <> 0 -> (0 <= n_atoms)%Z -> (0 < n_simulations)%Z ->
  (0 < length (np_arange 0 time_max dt))%nat ->
  let steps := length (np_arange 0 time_max dt) in
  let n := Z.to_nat n_simulations in
  exists acc w',
    simulate_runs n n_atoms time_max dt no_runs w = Ok acc w' /\
    simulate_mot n_atoms time_max dt n_simulations w
    = Ok (mkOutput (np_arange 0 time_max dt)
            (np_mean_axis1_3d (deref w' (positions_all acc)))
            (np_mean_axis1_3d (deref w' (velocities_all acc)))
            (np_mean_axis0_2d (temperatures_all acc))
            (np_mean_axis0_3d (level_populations_all acc))
            (np_mean_axis0_3d (velocity_distributions_all acc))) w' /\
    positions_all acc
    = map (fun r => replicate steps (length (farrs w) + 2 * r + 1)%nat)
          (seq 0 n) /\
    velocities_all acc
    = map (fun r => replicate steps (length (farrs w) + 2 * r)%nat)
          (seq 0 n) /\
    length (np_mean_axis0_2d (temperatures_all acc)) = steps.
Proof.
  intros Hdt Hn Hsim Hsteps steps n.
  destruct (simulate_runs_ok n_atoms time_max dt n Hdt Hn no_runs w)
    as (acc & w' & Heq & Hpos & Hvel & (tl & Htl1 & Htl2 & Htl3) & _ & _
        & Htimes & _ & _).
  cbn [positions_all velocities_all temperatures_all no_runs app] in *.
  fold steps in Hpos, Hvel, Htl3.
  assert (Hnpos : (0 < n)%nat) by (unfold n; lia).
  assert (Hlen : length (np_mean_axis0_2d (temperatures_all acc)) = steps).
  { rewrite length_np_mean_axis0_2d, Htl1.
    destruct tl as [|t tl']; [cbn in Htl2; lia|].
    cbn. by inversion Htl3. }
  exists acc, w'. split; [exact Heq|]. split; [|done].
  unfold simulate_mot. fold n. rewrite Heq.
  destruct (positions_all acc) as [|pa pl] eqn:Hpa.
  { destruct n; [lia|]. by cbn in Hpos. }
  rewrite <- Hpa.
  destruct (last (np_mean_axis0_2d (temperatures_all acc))) as [x|] eqn:Hlast.
  - by rewrite Htimes.
  - apply last_None in Hlast. rewrite Hlast in Hlen. cbn in Hlen.
    unfold steps in Hlen. lia.
Qed.

Lemma simulate_mot_no_runs n_atoms time_max dt n_simulations w :
  (n_simulations <= 0)%Z ->
  simulate_mot n_atoms time_max dt n_simulations w = Raise AxisError w.
Proof.
  intros Hle. unfold simulate_mot.
  by replace (Z.to_nat n_simulations) with 0%nat by lia.
Qed.

Lemma simulate_mot_zero_dt n_atoms time_max n_simulations w :
  (0 < n_simulations)%Z ->
  simulate_mot n_atoms time_max 0 n_simulations w = Raise ZeroDivisionError w.
Proof.
  intros Hlt. unfold simulate_mot.
  destruct (Z.to_nat n_simulations) as [|n] eqn:Hn; [lia|].
  cbn [simulate_runs]. unfold run_once.
  by destruct (Req_dec_T 0 0).
Qed.

Lemma simulate_mot_negative_atoms n_atoms time_max dt n_simulations w :
  (0 < n_simulations)%Z -> dt <> 0 -> (n_atoms < 0)%Z ->
  simulate_mot n_atoms time_max dt n_simulations w = Raise ValueError w.
Proof.
  intros Hlt Hdt Hneg. unfold simulate_mot.
  destruct (Z.to_nat n_simulations) as [|n] eqn:Hn; [lia|].
  cbn [simulate_runs]. unfold run_once.
  destruct (Req_dec_T dt 0); [done|].
  by rewrite (proj2 (Z.ltb_lt n_atoms 0)).
Qed.

Lemma simulate_mot_no_steps n_atoms time_max dt n_simulations w :
  (0 < n_simulations)%Z -> dt <> 0 -> (0 <= n_atoms)%Z ->
  time_max / dt <= 0 ->
  simulate_mot n_atoms time_max dt n_simulations w
  = Raise IndexError
      (snd (init_only (Z.to_nat n_simulations) (Z.to_nat n_atoms) w)).
Proof.
  intros Hlt Hdt Hn Hle.
  assert (Hempty := np_arange_empty time_max dt Hle).
  destruct (simulate_runs_ok n_atoms time_max dt (Z.to_nat n_simulations)
              Hdt Hn no_runs w)
    as (acc & w' & Heq & Hpos & _ & (tl & Htl1 & Htl2 & Htl3) & _ & _
        & _ & _ & Hinit).
  rewrite Hempty in *.
  cbn [positions_all temperatures_all no_runs app length] in *.
  unfold simulate_mot. rewrite Heq.
  destruct (positions_all acc) as [|pa pl] eqn:Hpa.
  { destruct (Z.to_nat n_simulations) eqn:E; [lia|]. by cbn in Hpos. }
  assert (Havg : np_mean_axis0_2d (temperatures_all acc) = []).
  { apply nil_length_inv. rewrite length_np_mean_axis0_2d, Htl1.
    destruct tl as [|t tl']; [done|]. cbn. by inversion Htl3. }
  rewrite Havg. cbn [last]. by rewrite Hinit.
Qed.

(** C3 (amended): [simulate_mot] has no configuration check of its own.
    A configuration with n_simulations <= 0, dt = 0, n_atoms < 0 or
    time_max / dt <= 0 (for instance time_max <= 0 < dt) ends in an
    exception raised by NumPy or by indexing, with no output; the world it
    leaves behind is the one produced by the initial draws of [r] runs and
    nothing else, so no time step was executed. In the first three cases
    (AxisError, ZeroDivisionError, ValueError) no run was initialised; in
    the last one (IndexError) every run was. *)
Theorem simulate_mot_bad_configuration
    n_atoms time_max dt n_simulations w :
  (n_simulations <= 0)%Z \/ dt = 0 \/ (n_atoms < 0)%Z \/ time_max / dt <= 0 ->
  exists e r,
    simulate_mot n_atoms time_max dt n_simulations w
    = Raise e (snd (init_only r (Z.to_nat n_atoms) w)) /\
    (r <= Z.to_nat n_simulations)%nat /\
    ((n_simulations <= 0)%Z -> e = AxisError /\ r = 0%nat) /\
    ((0 < n_simulations)%Z -> dt = 0 -> e = ZeroDivisionError /\ r = 0%nat) /\
    ((0 < n_simulations)%Z -> dt <> 0 -> (n_atoms < 0)%Z ->
     e = ValueError /\ r = 0%nat) /\
    ((0 < n_simulations)%Z -> dt <> 0 -> (0 <= n_atoms)%Z ->
     e = IndexError /\ r = Z.to_nat n_simulations).
Proof.
  intros Hbad.
  destruct (Z_le_gt_dec n_simulations 0) as [Hsim|Hsim].
  { exists AxisError, 0%nat. rewrite simulate_mot_no_runs by done.
    repeat split; done || lia. }
  destruct (Req_dec_T dt 0) as [->|Hdt].
  { exists ZeroDivisionError, 0%nat. rewrite simulate_mot_zero_dt by lia.
    repeat split; done || lia. }
  destruct (Z_lt_ge_dec n_atoms 0) as [Hneg|Hnat].
  { exists ValueError, 0%nat.
    rewrite simulate_mot_negative_atoms by (done || lia).
    repeat split; done || lia. }
  destruct Hbad as [?|[?|[?|Hle]]]; [lia | done | lia |].
  exists IndexError, (Z.to_nat n_simulations).
  rewrite simulate_mot_no_steps by (done || lia).
  repeat split; done || lia.
Qed.

Lemma simulate_mot_bad_configuration_witness :
  exists e r,
    simulate_mot 100 0 1e-4 3 (constant_world 0)
    = Raise e (snd (init_only r (Z.to_nat 100) (constant_world 0))) /\
    (r <= Z.to_nat 3)%nat /\
    ((3 <= 0)%Z -> e = AxisError /\ r = 0%nat) /\
    ((0 < 3)%Z -> 1e-4 = 0 -> e = ZeroDivisionError /\ r = 0%nat) /\
    ((0 < 3)%Z -> 1e-4 <> 0 -> (100 < 0)%Z -> e = ValueError /\ r = 0%nat) /\
    ((0 < 3)%Z -> 1e-4 <> 0 -> (0 <= 100)%Z ->
     e = IndexError /\ r = Z.to_nat 3).
Proof.
  apply (simulate_mot_bad_configuration 100 0 1e-4 3 (constant_world 0)).
  right. right. right. lra.
Defined.

(** ** Averages over a single entry *)

Section SingleMean.
Context {T : Type} `{Arith T} `{Inhabited T}.
Hypothesis amean_one : forall e : T, adivn (aadd e azero) 1 = e.

Lemma tabulate_lookup_total {X} `{Inhabited X} (l : list X) :
  map (fun j => l !!! j) (seq 0 (length l)) = l.
Proof.
  apply list_eq. intros i. rewrite list_lookup_fmap.
  destruct (decide (i < length l)%nat) as [Hlt|Hge].
  - rewrite lookup_seq_lt by done. cbn.
    by rewrite list_lookup_lookup_total_lt.
  - rewrite lookup_seq_ge by lia. cbn. symmetry.
    apply lookup_ge_None_2. lia.
Qed.

Lemma np_mean_axis0_2d_single (x : list T) : np_mean_axis0_2d [x] = x.
Proof.
  unfold np_mean_axis0_2d, amean, column. cbn [ncols map length foldr].
  rewrite <- (tabulate_lookup_total x) at 2.
  apply map_ext. intros j. apply amean_one.
Qed.

Lemma np_mean_axis0_3d_single (m : list (list T)) : np_mean_axis0_3d [m] = m.
Proof.
  unfold np_mean_axis0_3d, column. cbn [ncols map].
  rewrite <- (tabulate_lookup_total m) at 2.
  apply map_ext. intros t. apply np_mean_axis0_2d_single.
Qed.
End SingleMean.

Lemma amean_one_R (e : R) : adivn (aadd e azero) 1 = e.
Proof. cbn. lra. Qed.

Lemma amean_one_float64 (e : float64) : adivn (aadd e azero) 1 = e.
Proof. destruct e; cbn; [f_equal; lra | done]. Qed.

Lemma np_arange_two : length (np_arange 0 2 1) = 2%nat.
Proof.
  rewrite length_np_arange. rewrite (Zceil_eq 2); [done|]. lra.
Qed.

Lemma np_arange_one : length (np_arange 0 1 1) = 1%nat.
Proof.
  rewrite length_np_arange. rewrite (Zceil_eq 1); [done|]. lra.
Qed.

Lemma simulate_mot_single n_atoms time_max dt w :
  dt <> 0 -> (0 <= n_atoms)%Z ->
  (0 < length (np_arange 0 time_max dt))%nat ->
  let ts := np_arange 0 time_max dt in
  let '(st, w') := run_from_init (Z.to_nat n_atoms) ts dt w in
  run_once n_atoms time_max dt w = Ok (ts, st) w' /\
  simulate_mot n_atoms time_max dt 1 w
  = Ok (mkOutput ts
          (np_mean_axis1_3d (deref w' [positions_to_avg st]))
          (np_mean_axis1_3d (deref w' [velocities_to_avg st]))
          (temperatures st) (levels_distributions st)
          (velocity_distributions st)) w'.
Proof.
  intros Hdt Hn Hsteps ts.
  assert (Hrun := run_once_eq n_atoms time_max dt w Hdt Hn).
  assert (Hshape := run_from_init_shape (Z.to_nat n_atoms) ts dt w).
  fold ts in Hrun.
  destruct (run_from_init (Z.to_nat n_atoms) ts dt w) as [st w'].
  destruct Hshape as (_ & _ & _ & Htl & _).
  cbn [fst snd] in Hrun. split; [done|].
  unfold simulate_mot. change (Z.to_nat 1) with 1%nat. cbn [simulate_runs].
  rewrite Hrun.
  cbn [positions_all velocities_all temperatures_all
       velocity_distributions_all level_populations_all times_last
       no_runs app].
  rewrite (np_mean_axis0_2d_single amean_one_R).
  rewrite !(np_mean_axis0_3d_single amean_one_float64).
  destruct (last (temperatures st)) eqn:Hlast; [done|].
  apply last_None in Hlast. rewrite Hlast in Htl. cbn in Htl.
  unfold ts in Htl. lia.
Qed.

(** C2 (failing input): one atom, two time steps, one simulation. The
    averaged temperatures, level populations and per-level velocities are
    the run's own series, but the run recorded two position arrays and two
    velocity arrays while the averaged positions and velocities consist of
    a single row: they are averaged over the steps, not over the runs. *)
Theorem single_run_positions_not_identical (w : world) :
  let '(st, w') := run_from_init 1 (np_arange 0 2 1) 1 w in
  exists out,
    run_once 1 2 1 w = Ok (np_arange 0 2 1, st) w' /\
    simulate_mot 1 2 1 1 w = Ok out w' /\
    times out = np_arange 0 2 1 /\
    avg_temperatures out = temperatures st /\
    avg_level_populations out = levels_distributions st /\
    avg_velocity_distributions out = velocity_distributions st /\
    length (positions_to_avg st) = 2%nat /\
    length (avg_positions out) = 1%nat /\
    length (velocities_to_avg st) = 2%nat /\
    length (avg_velocities out) = 1%nat.
Proof.
  assert (Hsingle := simulate_mot_single 1 2 1 w).
  assert (Hshape := run_from_init_shape 1 (np_arange 0 2 1) 1 w).
  cbv zeta in Hsingle. change (Z.to_nat 1) with 1%nat in Hsingle.
  destruct (run_from_init 1 (np_arange 0 2 1) 1 w) as [st w'].
  destruct Hsingle as [Hrun Hsim]; [lra | lia | rewrite np_arange_two; lia |].
  destruct Hshape as (_ & _ & _ & _ & Hpa & Hva & _).
  eexists. split; [exact Hrun|]. split; [exact Hsim|].
  cbn [times avg_temperatures avg_level_populations
       avg_velocity_distributions avg_positions avg_velocities].
  rewrite Hpa, Hva, !length_replicate, np_arange_two.
  repeat split; done.
Qed.

(** C1 (failing input): one atom, one time step, two simulations. The
    averaged positions and velocities have two rows although there is one
    time step: row r is the array of run r itself, not the mean over the
    runs at a step. *)
Theorem averaged_positions_indexed_by_run (w : world) :
  exists out w',
    simulate_mot 1 1 1 2 w = Ok out w' /\
    length (times out) = 1%nat /\
    length (avg_temperatures out) = 1%nat /\
    avg_positions out
    = [farrs w' !!! (length (farrs w) + 1)%nat;
       farrs w' !!! (length (farrs w) + 3)%nat] /\
    avg_velocities out
    = [farrs w' !!! length (farrs w);
       farrs w' !!! (length (farrs w) + 2)%nat].
Proof.
  destruct (simulate_mot_ok 1 1 1 2 w)
    as (acc & w' & _ & Hsim & Hpos & Hvel & Hlen);
    [lra | lia | lia | rewrite np_arange_one; lia |].
  rewrite np_arange_one in Hpos, Hvel, Hlen.
  eexists _, w'. split; [exact Hsim|].
  cbn [times avg_temperatures avg_positions avg_velocities].
  split; [apply np_arange_one|]. split; [exact Hlen|].
  rewrite Hpos, Hvel.
  change (Z.to_nat 2) with 2%nat.
  cbn [seq map replicate deref np_mean_axis1_3d].
  rewrite !(np_mean_axis0_2d_single amean_one_R).
  replace (length (farrs w) + 2 * 0 + 1)%nat with (length (farrs w) + 1)%nat
    by lia.
  replace (length (farrs w) + 2 * 1 + 1)%nat with (length (farrs w) + 3)%nat
    by lia.
  replace (length (farrs w) + 2 * 0)%nat with (length (farrs w)) by lia.
  replace (length (farrs w) + 2 * 1)%nat with (length (farrs w) + 2)%nat
    by lia.
  done.
Qed.

(** C3 (counterexample): n_atoms = 0 with time_max = 1, dt = 1 and one
    simulation is not rejected: the call returns an output with one time
    step, and the generator has been advanced by the draws of that step. *)
Lemma simulate_mot_accepts_zero_atoms :
  exists out w',
    simulate_mot 0 1 1 1 (constant_world 0) = Ok out w' /\
    length (times out) = 1%nat /\
    length (avg_temperatures out) = 1%nat /\
    (rng (constant_world 0) < rng w')%nat.
Proof.
  assert (Hsingle := simulate_mot_single 0 1 1 (constant_world 0)).
  assert (Hshape := run_from_init_shape 0 (np_arange 0 1 1) 1 (constant_world 0)).
  cbv zeta in Hsingle. change (Z.to_nat 0) with 0%nat in Hsingle.
  destruct (run_from_init 0 (np_arange 0 1 1) 1 (constant_world 0)) as [st w'].
  destruct Hsingle as [_ Hsim]; [lra | lia | rewrite np_arange_one; lia |].
  destruct Hshape as (_ & _ & _ & Htl & _ & _ & _ & _ & _ & Hrng).
  rewrite np_arange_one in Htl, Hrng.
  eexists _, w'. split; [exact Hsim|].
  cbn [times avg_temperatures]. rewrite np_arange_one.
  repeat split; [done|]. cbn [constant_world rng] in *. lia.
Qed.

(** * Further properties of the model *)

(** ** The scattering force *)

Lemma scattering_force_value v delta I r dw dm w :
  fst (scattering_force v delta I r dw dm w)
  = hbar * k_L_eff_of dw w * (I * exp (- r ^ 2 / beam_radius ^ 2)) * Gamma
    / (2 * (1 + I / I_s
            + 4 * (delta * (1 + (0 + dm * source w (S (rng w))))
                   - k_L_eff_of dw w * v) ^ 2 / Gamma ^ 2)).
Proof. reflexivity. Qed.

Lemma exp_le_1 x : x <= 0 -> exp x <= 1.
Proof.
  intros [Hlt | ->].
  - rewrite <- exp_0. left. by apply exp_increasing.
  - rewrite exp_0. lra.
Qed.

Lemma Gamma_pos : 0 < Gamma.
Proof.
  unfold Gamma, pi. assert (Hpi := PI_RGT_0).
  apply Rmult_lt_0_compat; lra.
Qed.

Lemma hbar_pos : 0 < hbar.
Proof.
  unfold hbar. assert (Hpi := PI_RGT_0).
  apply Rdiv_lt_0_compat; lra.
Qed.

Lemma beam_radius_pos : 0 < beam_radius.
Proof. unfold beam_radius, beam_diameter. lra. Qed.

Lemma k_L_eff_pos dw w :
  0 < 1 + dw * source w (rng w) -> 0 < k_L_eff_of dw w.
Proof.
  intros Hpos. unfold k_L_eff_of, pi, wavelength.
  assert (Hpi := PI_RGT_0).
  apply Rdiv_lt_0_compat; [lra|].
  apply Rmult_lt_0_compat; lra.
Qed.

(** X1: for a non-negative intensity and a wavelength draw that leaves the
    wavelength positive, the force is never negative and never exceeds the
    value it has at resonance on the beam axis,
    hbar * k_eff * I * Gamma / (2 * (1 + s)), whatever the velocity, the
    detuning and the radial position are. *)
Theorem scattering_force_bounds v delta I r dw dm w :
  0 <= I -> 0 < 1 + dw * source w (rng w) ->
  0 <= fst (scattering_force v delta I r dw dm w)
  <= hbar * (2 * pi / (wavelength * (1 + (0 + dw * source w (rng w)))))
     * I * Gamma / (2 * (1 + I / I_s)).
Proof.
  intros HI Hw. rewrite scattering_force_value.
  change (2 * pi / (wavelength * (1 + (0 + dw * source w (rng w)))))
    with (k_L_eff_of dw w).
  assert (Hk := k_L_eff_pos dw w Hw). set (keff := k_L_eff_of dw w) in *.
  assert (HG := Gamma_pos). assert (Hh := hbar_pos).
  assert (HR := beam_radius_pos).
  set (q := (delta * _ - keff * v) ^ 2).
  assert (Hq : 0 <= q) by (unfold q; apply pow2_ge_0).
  assert (Hs : 0 <= I / I_s) by (unfold I_s; lra).
  assert (HG2 : 0 < Gamma ^ 2) by nra.
  assert (Hq4 : 0 <= 4 * q / Gamma ^ 2).
  { apply Rmult_le_pos; [lra | left; by apply Rinv_0_lt_compat]. }
  set (d := 4 * q / Gamma ^ 2) in *.
  set (e := exp (- r ^ 2 / beam_radius ^ 2)).
  assert (He0 : 0 < e) by apply exp_pos.
  assert (He1 : e <= 1).
  { apply exp_le_1. unfold Rdiv.
    assert (0 <= r ^ 2 * / beam_radius ^ 2); [|lra].
    apply Rmult_le_pos; [apply pow2_ge_0 | left; apply Rinv_0_lt_compat; nra]. }
  assert (Hnum : 0 <= hbar * keff * Gamma) by (apply Rmult_le_pos; nra).
  set (A := hbar * keff * Gamma) in *.
  replace (hbar * keff * (I * e) * Gamma) with (A * (I * e))
    by (unfold A; ring).
  replace (hbar * keff * I * Gamma) with (A * I) by (unfold A; ring).
  assert (Hinv1 : 0 < / (2 * (1 + I / I_s + d)))
    by (apply Rinv_0_lt_compat; lra).
  assert (Hinv2 : / (2 * (1 + I / I_s + d)) <= / (2 * (1 + I / I_s)))
    by (apply Rinv_le_contravar; lra).
  assert (HIe : 0 <= I * e <= I) by nra.
  assert (HAIe : 0 <= A * (I * e) <= A * I) by nra.
  unfold Rdiv. split.
  - apply Rmult_le_pos; lra.
  - apply Rmult_le_compat; lra.
Qed.

Lemma scattering_force_bounds_witness :
  0 <= fst (scattering_force 3 0 20 1e-3 wavelength_fluctuation
              magnetic_fluctuation (constant_world 1))
  <= hbar * (2 * pi / (wavelength
                       * (1 + (0 + wavelength_fluctuation
                                   * source (constant_world 1)
                                       (rng (constant_world 1))))))
     * 20 * Gamma / (2 * (1 + 20 / I_s)).
Proof.
  apply (scattering_force_bounds 3 0 20 1e-3 wavelength_fluctuation
           magnetic_fluctuation (constant_world 1)).
  - lra.
  - unfold wavelength_fluctuation, constant_world.
    cbv beta iota delta [source rng]. lra.
Defined.

(** X2: at detuning 0, the value [simulate_mot] passes, the force is the
    same for a velocity and for its opposite: it does not depend on the
    direction of motion. *)
Theorem scattering_force_even_in_velocity v I r dw dm w :
  fst (scattering_force (- v) 0 I r dw dm w)
  = fst (scattering_force v 0 I r dw dm w).
Proof.
  rewrite !scattering_force_value. do 4 f_equal. ring.
Qed.

(** ** The level-transition model, continued *)

(** X3: [transition_between_levels] works in place and touches nothing
    else: it returns the reference it was given, leaves every float array
    and every other integer array as it was, allocates nothing, and keeps
    the length of the levels array. *)
Theorem transition_changes_only_its_array levels temperature dt w lv :
  iarrs w !! levels = Some lv ->
  let '(res, w') := transition_between_levels levels temperature dt w in
  res = levels /\
  farrs w' = farrs w /\
  length (iarrs w') = length (iarrs w) /\
  (forall a, a <> levels -> iarrs w' !! a = iarrs w !! a) /\
  length (iarrs w' !!! levels) = length lv.
Proof.
  intros Hlv. rewrite (transition_between_levels_eq _ _ _ _ lv) by done.
  cbn [farrs iarrs].
  assert (Hlev : (levels < length (iarrs w))%nat).
  { apply lookup_lt_is_Some_1. by eexists. }
  rewrite length_insert, list_lookup_total_insert_eq by done.
  repeat split; try done.
  - intros a Ha. by rewrite list_lookup_insert_ne.
  - apply length_scan_range.
Qed.

Lemma transition_changes_only_its_array_witness :
  let w := mkWorld [[1; 2]] [[0; 1]%Z; [3]%Z] (fun _ => 0) 0 in
  let '(res, w') := transition_between_levels 1%nat 0 1e-4 w in
  res = 1%nat /\
  farrs w' = farrs w /\
  length (iarrs w') = length (iarrs w) /\
  (forall a, a <> 1%nat -> iarrs w' !! a = iarrs w !! a) /\
  length (iarrs w' !!! 1%nat) = length [3%Z].
Proof.
  intros w.
  apply (transition_changes_only_its_array 1%nat 0 1e-4 w [3%Z]).
  reflexivity.
Defined.

(** X4: levels stay levels: if every entry of the array is one of 0, 1,
    2, 3 before the call, every entry is one of 0, 1, 2, 3 after it. *)
Theorem transition_keeps_levels_in_range levels temperature dt w lv :
  iarrs w !! levels = Some lv ->
  Forall (fun l => (0 <= l <= 3)%Z) lv ->
  let '(res, w') := transition_between_levels levels temperature dt w in
  Forall (fun l => (0 <= l <= 3)%Z) (iarrs w' !!! res).
Proof.
  intros Hlv Hr. rewrite (transition_between_levels_eq _ _ _ _ lv) by done.
  cbn [iarrs].
  assert (Hlev : (levels < length (iarrs w))%nat).
  { apply lookup_lt_is_Some_1. by eexists. }
  rewrite list_lookup_total_insert_eq by done.
  by apply scan_range_range.
Qed.

Lemma transition_keeps_levels_in_range_witness :
  let w := mkWorld [] [[0; 1; 2; 3]%Z] (fun _ => 0) 0 in
  let '(res, w') := transition_between_levels 0%nat 0 1e-4 w in
  Forall (fun l => (0 <= l <= 3)%Z) (iarrs w' !!! res).
Proof.
  intros w.
  apply (transition_keeps_levels_in_range 0%nat 0 1e-4 w [0; 1; 2; 3]%Z).
  - reflexivity.
  - repeat constructor; lia.
Defined.

Lemma transition_prob_le temperature dt item :
  0 <= temperature -> 0 <= dt -> 0 <= snd item <= 0.8 ->
  transition_prob_of temperature dt item <= 0.8 * dt.
Proof.
  intros HT Hdt Hp. destruct item as [[start end_] prob]. cbn [snd] in Hp.
  unfold transition_prob_of.
  assert (He : exp (- IZR (Z.abs (start - end_)) * temperature / k) <= 1).
  { apply exp_le_1. assert (Hk := k_pos).
    assert (Habs : 0 <= IZR (Z.abs (start - end_))) by (apply IZR_le; lia).
    unfold Rdiv.
    assert (0 <= IZR (Z.abs (start - end_)) * temperature * / k); [|lra].
    apply Rmult_le_pos; [nra | left; by apply Rinv_0_lt_compat]. }
  assert (He0 := exp_pos (- IZR (Z.abs (start - end_)) * temperature / k)).
  set (e := exp _) in *.
  assert (Hpe : 0 <= prob * e <= 0.8) by nra.
  nra.
Qed.

Lemma transition_probabilities_small :
  Forall (fun item : (Z * Z) * R => 0 <= snd item <= 0.8)
    transition_probabilities.
Proof.
  unfold transition_probabilities.
  repeat (apply List.Forall_cons; [cbn [snd]; lra|]). apply List.Forall_nil.
Qed.

Lemma scan_atom_miss temperature dt table :
  0 <= temperature -> 0 <= dt ->
  Forall (fun item : (Z * Z) * R => 0 <= snd item <= 0.8) table ->
  forall us l, Forall (fun u => 0.8 * dt <= u) us ->
  scan_atom temperature dt table us l = l.
Proof.
  intros HT Hdt. unfold scan_atom.
  induction 1 as [|item table Hitem _ IH]; intros us l Hus; [done|].
  destruct us as [|u us]; [done|]. cbn [zip zip_with foldl].
  inversion Hus as [|? ? Hu Hus']; subst.
  assert (Hmiss : scan_item temperature dt l (item, u) = l).
  { unfold scan_item. rewrite Rltb_false; [done|].
    assert (Hle := transition_prob_le temperature dt item HT Hdt Hitem).
    lra. }
  rewrite Hmiss. by apply IH.
Qed.

(** X5: at a non-negative temperature and for a non-negative time step no
    transition probability exceeds 0.8 * dt, so an atom whose six draws are
    all at least 0.8 * dt keeps its level. *)
Theorem transition_misses_keep_level levels temperature dt w lv i l :
  iarrs w !! levels = Some lv -> lv !! i = Some l ->
  0 <= temperature -> 0 <= dt ->
  (forall j, (j < 6)%nat -> 0.8 * dt <= source w (rng w + 6 * i + j)%nat) ->
  let '(res, w') := transition_between_levels levels temperature dt w in
  (iarrs w' !!! res) !! i = Some l.
Proof.
  intros Hlv Hl HT Hdt Hdraws.
  rewrite (transition_between_levels_eq _ _ _ _ lv) by done. cbn [iarrs].
  assert (Hlev : (levels < length (iarrs w))%nat).
  { apply lookup_lt_is_Some_1. by eexists. }
  assert (Hi : (i < length lv)%nat).
  { apply lookup_lt_is_Some_1. by eexists. }
  rewrite list_lookup_total_insert_eq by done.
  rewrite lookup_scan_range by lia. rewrite decide_True by lia.
  rewrite (list_lookup_total_correct lv i l) by done. f_equal.
  apply scan_atom_miss; try done; [apply transition_probabilities_small|].
  apply Forall_fmap, Forall_forall. intros j Hj%elem_of_seq.
  unfold compose.
  replace (rng w + 6 * (i - 0) + j)%nat with (rng w + 6 * i + j)%nat by lia.
  apply Hdraws. lia.
Qed.

Lemma transition_misses_keep_level_witness :
  let w := mkWorld [] [[1; 2]%Z] (fun _ => 0.5) 0 in
  let '(res, w') := transition_between_levels 0%nat 300 1e-4 w in
  (iarrs w' !!! res) !! 1%nat = Some 2%Z.
Proof.
  intros w.
  apply (transition_misses_keep_level 0%nat 300 1e-4 w [1; 2]%Z 1%nat 2%Z);
    try reflexivity; try lra.
  intros j _. unfold w. cbv beta iota delta [source]. lra.
Defined.

(** ** The repumper, continued *)

(** X6: the dark-state leak. An atom at level 1 or 2 is moved to level 3
    exactly when its own leak draw (the second uniform draw made for it in
    the call) is below 1e-21, and keeps its level otherwise; an atom at
    level 3 is never changed. *)
Theorem repumper_leak
    levels velocities I_repumper temperature dw w i l v :
  (iarrs w !!! levels) !! i = Some l ->
  (farrs w !!! velocities) !! i = Some v ->
  let n := length (iarrs w !!! levels) in
  let u' := source w (rng w + (1 + n) + i)%nat in
  let '(res, w') :=
    repumper_effect_on_levels levels velocities I_repumper temperature dw w in
  exists l', (iarrs w' !!! res) !! i = Some l' /\
    (l = 1%Z \/ l = 2%Z -> l' = if Rltb u' 1e-21 then 3%Z else l) /\
    (l = 3%Z -> l' = 3%Z).
Proof.
  intros Hl Hv n u'.
  assert (Hlev : (levels < length (iarrs w))%nat).
  { destruct (decide (levels < length (iarrs w))%nat) as [|Hge]; [done|].
    rewrite list_lookup_total_alt, (lookup_ge_None_2 (iarrs w) levels) in Hl
      by lia.
    cbn in Hl. by rewrite lookup_nil in Hl. }
  assert (Hi : (i < n)%nat).
  { apply lookup_lt_is_Some_1. by eexists. }
  rewrite repumper_unfold by done. cbn [iarrs].
  rewrite lookup_total_snoc.
  erewrite lookup_repumper_result;
    [| exact Hl | exact Hv | by apply lookup_draws | by apply lookup_draws].
  eexists. split; [reflexivity|]. fold n. fold u'. unfold leak_prob. split.
  - intros [-> | ->]; cbn; by destruct (Rltb u' 1e-21).
  - intros ->. cbn. done.
Qed.

Lemma repumper_leak_witness :
  let w := mkWorld [[0; 2]] [[2; 3]%Z] (fun _ => 0.5) 0 in
  let n := length (iarrs w !!! 0%nat) in
  let u' := source w (rng w + (1 + n) + 0)%nat in
  let '(res, w') :=
    repumper_effect_on_levels 0%nat 0%nat repumper_intensity 0
      wavelength_fluctuation w in
  exists l', (iarrs w' !!! res) !! 0%nat = Some l' /\
    (2%Z = 1%Z \/ 2%Z = 2%Z -> l' = if Rltb u' 1e-21 then 3%Z else 2%Z) /\
    (2%Z = 3%Z -> l' = 3%Z).
Proof.
  intros w.
  apply (repumper_leak 0%nat 0%nat repumper_intensity 0
           wavelength_fluctuation w 0%nat 2%Z 0); reflexivity.
Defined.

Lemma clamped_temperature_pos temperature : 0 < Rmax temperature 1e-12.
Proof.
  apply Rlt_le_trans with 1e-12; [lra | apply Rmax_r].
Qed.

(** X7: thanks to the clamp the promotion probability is well behaved at
    every temperature, also zero or negative: for a non-negative repumper
    intensity it lies between 0 and repumper_effect * I_repumper / I_sat,
    and it does not increase with the speed of the atom. *)
Theorem repumper_prob_velocity_selective I_repumper temperature v1 v2 :
  0 <= I_repumper -> Rabs v1 <= Rabs v2 ->
  let p := repumper_prob I_repumper (Rmax temperature 1e-12) in
  0 <= p v2 /\ p v2 <= p v1 /\ p v1 <= repumper_effect * I_repumper / I_s.
Proof.
  intros HI Hv p. unfold p, repumper_prob.
  assert (HT := clamped_temperature_pos temperature).
  set (Ts := Rmax temperature 1e-12) in *.
  assert (Hk := k_pos). assert (Hm := mass_Rb_pos).
  assert (Hc : 0 <= repumper_effect * I_repumper / I_s).
  { unfold repumper_effect, I_s. lra. }
  set (c := repumper_effect * I_repumper / I_s) in *.
  assert (Hd : 0 < 2 * k * Ts / mass_Rb).
  { apply Rdiv_lt_0_compat; [|done]. apply Rmult_lt_0_compat; lra. }
  set (d := 2 * k * Ts / mass_Rb) in *.
  assert (Hsq : v1 ^ 2 <= v2 ^ 2).
  { rewrite <- (pow2_abs v1), <- (pow2_abs v2).
    assert (H1 := Rabs_pos v1). nra. }
  assert (Hinv : 0 < / d) by by apply Rinv_0_lt_compat.
  assert (Harg : - v2 ^ 2 / d <= - v1 ^ 2 / d) by (unfold Rdiv; nra).
  assert (Hexp : exp (- v2 ^ 2 / d) <= exp (- v1 ^ 2 / d)).
  { destruct Harg as [Hlt | ->]; [left; by apply exp_increasing | lra]. }
  assert (He1 : exp (- v1 ^ 2 / d) <= 1).
  { apply exp_le_1. unfold Rdiv. assert (0 <= v1 ^ 2) by apply pow2_ge_0. nra. }
  assert (He2 := exp_pos (- v2 ^ 2 / d)).
  repeat split; nra.
Qed.

Lemma repumper_prob_velocity_selective_witness :
  let p := repumper_prob repumper_intensity (Rmax 0 1e-12) in
  0 <= p 3 /\ p 3 <= p (-1)
  /\ p (-1) <= repumper_effect * repumper_intensity / I_s.
Proof.
  apply (repumper_prob_velocity_selective repumper_intensity 0 (-1) 3).
  - unfold repumper_intensity. lra.
  - unfold Rabs. repeat destruct (Rcase_abs _); lra.
Defined.

(** X8: shape and cost of a repumper call. When the velocities array is as
    long as the levels array, the returned array has that length too, its
    entries are levels 0..3 if the input's were, and the call consumes
    exactly 1 + 2 n draws of the generator. *)
Theorem repumper_shape levels velocities I_repumper temperature dw w :
  (levels < length (iarrs w))%nat ->
  length (farrs w !!! velocities) = length (iarrs w !!! levels) ->
  let n := length (iarrs w !!! levels) in
  let '(res, w') :=
    repumper_effect_on_levels levels velocities I_repumper temperature dw w in
  length (iarrs w' !!! res) = n /\
  (Forall (fun l => (0 <= l <= 3)%Z) (iarrs w !!! levels) ->
   Forall (fun l => (0 <= l <= 3)%Z) (iarrs w' !!! res)) /\
  rng w' = (rng w + 1 + 2 * n)%nat /\
  length (iarrs w') = S (length (iarrs w)).
Proof.
  intros Hlev Hlen n. rewrite repumper_unfold by done.
  cbn [iarrs rng]. rewrite lookup_total_snoc, length_app. cbn [length].
  fold n. split; [|split; [|split; lia]].
  - rewrite length_repumper_result; rewrite ?length_draws; done.
  - intros Hr. apply repumper_result_range; rewrite ?length_draws; done.
Qed.

Lemma repumper_shape_witness :
  let w := mkWorld [[0; 2]] [[0; 3]%Z] (fun _ => 0.5) 0 in
  let n := length (iarrs w !!! 0%nat) in
  let '(res, w') :=
    repumper_effect_on_levels 0%nat 0%nat repumper_intensity 0
      wavelength_fluctuation w in
  length (iarrs w' !!! res) = n /\
  (Forall (fun l => (0 <= l <= 3)%Z) (iarrs w !!! 0%nat) ->
   Forall (fun l => (0 <= l <= 3)%Z) (iarrs w' !!! res)) /\
  rng w' = (rng w + 1 + 2 * n)%nat /\
  length (iarrs w') = S (length (iarrs w)).
Proof.
  intros w.
  apply (repumper_shape 0%nat 0%nat repumper_intensity 0
           wavelength_fluctuation w); cbn; lia.
Defined.

(** ** Per-level mean velocities, continued *)

Lemma finite_values_at_level l lv :
  forall vs,
  finite_values (np_where_nan (map (fun x => (x =? l)%Z) lv) vs)
  = speeds_at_level l lv vs.
Proof.
  unfold finite_values, np_where_nan, speeds_at_level.
  induction lv as [|x lv IH]; intros [|v vs]; try done.
  cbn [map zip zip_with omap]. rewrite filter_cons. cbn [fst].
  destruct (Z.eqb_spec x l) as [->|Hne].
  - rewrite decide_True by done. cbn. f_equal. apply IH.
  - rewrite decide_False by done. cbn. apply IH.
Qed.

Lemma speeds_at_level_populated l lv :
  forall vs, speeds_at_level l lv vs <> [] ->
  np_any (map (fun x => (x =? l)%Z) lv) = true.
Proof.
  unfold speeds_at_level, np_any.
  induction lv as [|x lv IH]; intros [|v vs] Hne; try done.
  cbn [map existsb]. cbn [zip zip_with] in Hne. rewrite filter_cons in Hne.
  cbn [fst] in Hne. destruct (Z.eqb_spec x l) as [->|Hx]; [done|].
  rewrite decide_False in Hne by done. cbn. by apply (IH vs).
Qed.

(** X9: what the recorded 4-vector holds in general. Component j (j = 0,
    1, 2, 3) is computed from the atoms whose level is j + 1: it is the
    mean of their velocities, and NaN exactly when there is no such atom.
    Atoms at level 0 never enter the vector. *)
Theorem level_velocities_components lv vs j :
  (j < 4)%nat ->
  let sel := speeds_at_level (Z.of_nat j + 1) lv vs in
  level_velocities lv vs !! j
  = Some (match sel with
          | [] => NaN
          | _ => Num (Rsum sel / INR (length sel))
          end).
Proof.
  intros Hj sel.
  assert (Hlv : level_velocities lv vs !! j
                = Some (level_velocity (Z.of_nat j + 1) lv vs)).
  { unfold level_velocities.
    destruct j as [|[|[|[|j]]]]; try lia; reflexivity. }
  rewrite Hlv. f_equal. unfold level_velocity.
  assert (Hfin := finite_values_at_level (Z.of_nat j + 1) lv vs).
  assert (Hpop := speeds_at_level_populated (Z.of_nat j + 1) lv vs).
  fold sel in Hfin, Hpop. unfold np_nanmean. rewrite Hfin.
  destruct sel as [|s sel'].
  - by destruct (np_any _).
  - rewrite Hpop by done. reflexivity.
Qed.

Lemma level_velocities_components_witness :
  let sel := speeds_at_level (Z.of_nat 0 + 1) [0; 1; 1]%Z [2; 5; 7] in
  level_velocities [0; 1; 1]%Z [2; 5; 7] !! 0%nat
  = Some (match sel with
          | [] => NaN
          | _ => Num (Rsum sel / INR (length sel))
          end).
Proof.
  apply (level_velocities_components [0; 1; 1]%Z [2; 5; 7] 0). lia.
Defined.

(** ** Trapped-atom temperature, continued *)



(** ** Initial draws, continued *)

Lemma init_ensemble_explicit n w :
  init_ensemble n w
  = (mkLocals (length (farrs w)) (S (length (farrs w))) (length (iarrs w))
       T0 [] [] [] [] [],
     mkWorld
       (farrs w
        ++ [map (fun i => 0 + sqrt (k * T0 / mass_Rb)
                             * source w (rng w + i)%nat) (seq 0 n);
            map (fun i => - beam_radius
                          + (beam_radius - - beam_radius)
                            * source w (rng w + n + i)%nat) (seq 0 n)])
       (iarrs w
        ++ [map (fun i => choice_level (source w (rng w + n + n + i)%nat))
                (seq 0 n)])
       (source w) (rng w + 3 * n)).
Proof.
  destruct w as [fa ia src r].
  unfold init_ensemble, np_random_normal_n, np_random_uniform_n,
    np_random_choice_n.
  cbv beta iota zeta delta [bind].
  rewrite (replicateM_draw (fun z => 0 + sqrt (k * T0 / mass_Rb) * z))
    by (intros w0; unfold np_random_normal, bind, draw, ret, advance;
        by rewrite Nat.add_1_r).
  cbv beta iota zeta delta [alloc_f advance farrs iarrs source rng].
  rewrite (replicateM_draw (fun u => - beam_radius
                                     + (beam_radius - - beam_radius) * u))
    by (intros w0; unfold bind, draw, ret, advance; by rewrite Nat.add_1_r).
  cbv beta iota zeta delta [alloc_f alloc_i advance farrs iarrs source rng].
  rewrite (replicateM_draw choice_level)
    by (intros w0; unfold bind, draw, ret, advance; by rewrite Nat.add_1_r).
  cbv beta iota zeta delta [alloc_i ret advance farrs iarrs source rng].
  f_equal.
  - f_equal. rewrite length_app. cbn. lia.
  - f_equal; [by rewrite <- app_assoc | lia].
Qed.

(** X12: if the n uniform deviates drawn for the positions (the draws
    n .. 2n-1 of the run, after the n normal deviates of the velocities) lie
    in [0, 1), every initial position lies in [-beam_radius, beam_radius):
    no atom starts beyond the beam edge, and only a draw of exactly 0 puts
    one on it. *)
Theorem initial_positions_in_beam n w :
  (forall i, (i < n)%nat -> 0 <= source w (rng w + n + i)%nat < 1) ->
  let '(st, w') := init_ensemble n w in
  length (farrs w' !!! positions st) = n /\
  Forall (fun p => - beam_radius <= p < beam_radius)
    (farrs w' !!! positions st).
Proof.
  intros Hu. rewrite init_ensemble_explicit. cbn [positions farrs].
  rewrite lookup_total_app_r by lia.
  replace (S (length (farrs w)) - length (farrs w))%nat with 1%nat by lia.
  cbn [lookup_total list_lookup_total].
  split; [by rewrite length_map, length_seq|].
  apply Forall_fmap, Forall_forall. intros i Hi%elem_of_seq. unfold compose.
  assert (HR := beam_radius_pos).
  destruct (Hu i) as [H0 H1]; [lia|]. nra.
Qed.

Lemma initial_positions_in_beam_witness :
  let w := mkWorld [] [] (fun i => if (i <? 3)%nat then -2 else 0.5) 0 in
  let '(st, w') := init_ensemble 3 w in
  length (farrs w' !!! positions st) = 3%nat /\
  Forall (fun p => - beam_radius <= p < beam_radius)
    (farrs w' !!! positions st).
Proof.
  intros w. apply (initial_positions_in_beam 3 w).
  intros i Hi. unfold w. cbv beta iota delta [source rng].
  replace (0 + 3 + i <? 3)%nat with false
    by (symmetry; apply Nat.ltb_ge; lia).
  lra.
Defined.

(** ** One time step, continued *)

Lemma lookup_step_forces I vp :
  forall w i x,
  vp !! i = Some x ->
  fst (step_forces I vp w) !! i
  = Some (fst (scattering_force (fst x) 0 I (snd x) wavelength_fluctuation
                 magnetic_fluctuation (advance (2 * i) w))).
Proof.
  unfold step_forces.
  induction vp as [|y vp IH]; intros w i x Hx; [done|].
  cbn [mapM]. unfold bind.
  destruct (scattering_force (fst y) 0 I (snd y) wavelength_fluctuation
              magnetic_fluctuation w) as [f w1] eqn:Hf.
  assert (Hw1 : w1 = advance 2 w).
  { by rewrite <- (scattering_force_world (fst y) 0 I (snd y)
                    wavelength_fluctuation magnetic_fluctuation w), Hf. }
  destruct (mapM _ vp w1) as [fs w2] eqn:Hfs. unfold ret. cbn [fst].
  destruct i as [|i].
  - cbn in Hx. injection Hx as <-. change ((f :: fs) !! 0%nat) with (Some f).
    change (2 * 0)%nat with 0%nat. by rewrite advance_0, Hf.
  - cbn in Hx. change ((f :: fs) !! S i) with (fs !! i).
    assert (IHi := IH w1 i x Hx). rewrite Hfs in IHi. cbn [fst] in IHi.
    rewrite IHi, Hw1, advance_advance.
    by replace (2 + 2 * i)%nat with (2 * S i)%nat by lia.
Qed.

(** X13: the integration scheme. In one time step every atom's velocity
    becomes v + f / m * dt, with f the scattering force computed from the
    old velocity and position (its own two draws, after the power draw and
    the draws of the atoms before it), and its position becomes
    p + v_new * dt: the position update uses the velocity just updated. *)
Theorem mot_step_semi_implicit_euler n dt st w i v p :
  shape_ok n st w -> velocities st <> positions st ->
  (farrs w !!! velocities st) !! i = Some v ->
  (farrs w !!! positions st) !! i = Some p ->
  let I := P_laser * (1 + (0 + power_fluctuation * source w (rng w)))
           / (pi * (beam_diameter / 2) ^ 2) in
  let f := fst (scattering_force v 0 I p wavelength_fluctuation
                  magnetic_fluctuation (advance (1 + 2 * i) w)) in
  let '(st', w') := mot_step dt st w in
  (farrs w' !!! velocities st') !! i = Some (v + f / mass_Rb * dt) /\
  (farrs w' !!! positions st') !! i
  = Some (p + (v + f / mass_Rb * dt) * dt).
Proof.
  intros (Hv & Hp & Hl & Hlv & Hlp & Hll & Hr) Hne Hvi Hpi I f.
  rewrite mot_step_eq by done. cbv zeta. fold I.
  cbn [velocities positions farrs].
  set (vp := zip (farrs w !!! velocities st) (farrs w !!! positions st)).
  set (forces := fst (step_forces I vp (advance 1 w))).
  assert (Hvp : vp !! i = Some (v, p)).
  { unfold vp. by rewrite lookup_zip_with, Hvi, Hpi. }
  assert (Hf : forces !! i = Some f).
  { unfold forces. rewrite (lookup_step_forces I vp _ i (v, p)) by done.
    cbn [fst snd]. by rewrite advance_advance. }
  unfold euler_farrs.
  set (v1 := zip_with Rplus (farrs w !!! velocities st) _).
  assert (Hv1 : v1 !! i = Some (v + f / mass_Rb * dt)).
  { unfold v1. by rewrite lookup_zip_with, Hvi, list_lookup_fmap, Hf. }
  set (fa1 := <[velocities st := v1]> (farrs w)).
  assert (Hfa1v : fa1 !!! velocities st = v1).
  { unfold fa1. by rewrite list_lookup_total_insert_eq. }
  assert (Hfa1p : fa1 !!! positions st = farrs w !!! positions st).
  { unfold fa1. by rewrite list_lookup_total_insert_ne. }
  rewrite Hfa1v, Hfa1p.
  set (p1 := zip_with Rplus (farrs w !!! positions st) _).
  assert (Hp1 : p1 !! i = Some (p + (v + f / mass_Rb * dt) * dt)).
  { unfold p1. by rewrite lookup_zip_with, Hpi, list_lookup_fmap, Hv1. }
  rewrite (list_lookup_total_insert_ne fa1) by done.
  rewrite list_lookup_total_insert_eq
    by (unfold fa1; by rewrite length_insert).
  split; [|done]. unfold fa1. by rewrite list_lookup_total_insert_eq.
Qed.

Lemma mot_step_semi_implicit_euler_witness :
  let w := mkWorld [[2]; [1e-3]] [[0%Z]] (fun _ => 0) 0 in
  let st := mkLocals 0%nat 1%nat 0%nat T0 [] [] [] [] [] in
  let I := P_laser * (1 + (0 + power_fluctuation * source w (rng w)))
           / (pi * (beam_diameter / 2) ^ 2) in
  let f := fst (scattering_force 2 0 I 1e-3 wavelength_fluctuation
                  magnetic_fluctuation (advance (1 + 2 * 0) w)) in
  let '(st', w') := mot_step 1e-4 st w in
  (farrs w' !!! velocities st') !! 0%nat = Some (2 + f / mass_Rb * 1e-4) /\
  (farrs w' !!! positions st') !! 0%nat
  = Some (1e-3 + (2 + f / mass_Rb * 1e-4) * 1e-4).
Proof.
  intros w st.
  apply (mot_step_semi_implicit_euler 1 1e-4 st w 0%nat 2 1e-3);
    try reflexivity.
  - unfold shape_ok, st, w. cbn. repeat split; try lia.
    repeat constructor; lia.
  - unfold st. cbn. lia.
Defined.

(** ** Invariants of a run *)

Lemma run_steps_invariant n dt (P : run_locals -> world -> Prop) :
  (forall st w, shape_ok n st w -> P st w ->
     let '(st', w') := mot_step dt st w in P st' w') ->
  forall ts st w, shape_ok n st w -> P st w ->
    let '(st', w') := run_steps ts dt st w in P st' w'.
Proof.
  intros Hstep. induction ts as [|t ts IH]; intros st w Hs HP; [done|].
  cbn [run_steps]. unfold bind.
  assert (H1 := mot_step_shape n dt st w Hs).
  assert (H2 := Hstep st w Hs HP).
  destruct (mot_step dt st w) as [st1 w1].
  destruct H1 as (Hs1 & _). by apply IH.
Qed.

Lemma run_from_init_invariant n dt (P : run_locals -> world -> Prop) w :
  (forall st w1, shape_ok n st w1 -> P st w1 ->
     let '(st', w') := mot_step dt st w1 in P st' w') ->
  (let '(st0, w0) := init_ensemble n w in P st0 w0) ->
  forall ts, let '(st, w') := run_from_init n ts dt w in P st w'.
Proof.
  intros Hstep Hinit ts. unfold run_from_init, bind.
  assert (H0 := init_ensemble_shape n w).
  destruct (init_ensemble n w) as [st0 w0]. destruct H0 as (Hs0 & _).
  by apply (run_steps_invariant n dt P Hstep).
Qed.

(** X14: a run never disturbs what existed before it started: every float
    array and every integer array already in the store when the run begins
    holds the same values when it ends, so the arrays recorded by earlier
    runs survive later ones. *)
Theorem run_leaves_existing_arrays n ts dt w :
  let '(st, w') := run_from_init n ts dt w in
  (forall a, (a < length (farrs w))%nat -> farrs w' !! a = farrs w !! a) /\
  (forall a, (a < length (iarrs w))%nat -> iarrs w' !! a = iarrs w !! a) /\
  source w' = source w.
Proof.
  pose (P := fun (st : run_locals) (w1 : world) =>
    (length (farrs w) <= velocities st)%nat /\
    (length (farrs w) <= positions st)%nat /\
    (forall a, (a < length (farrs w))%nat -> farrs w1 !! a = farrs w !! a) /\
    (forall a, (a < length (iarrs w))%nat -> iarrs w1 !! a = iarrs w !! a) /\
    source w1 = source w).
  assert (H := run_from_init_invariant n dt P w).
  assert (Hres : let '(st, w') := run_from_init n ts dt w in P st w').
  { apply H.
    - intros st w1 (_ & _ & Hl & _) (Hv & Hp & Hfa & Hia & Hsrc).
      rewrite mot_step_eq by done. cbv zeta. unfold P.
      cbn [velocities positions farrs iarrs source].
      split; [done|]. split; [done|]. split; [|split; [|done]].
      + intros a Ha. unfold euler_farrs.
        rewrite !list_lookup_insert_ne by lia. by apply Hfa.
      + intros a Ha. rewrite lookup_app_l; [by apply Hia|].
        apply lookup_lt_is_Some_1. rewrite Hia by done.
        by apply lookup_lt_is_Some_2.
    - rewrite init_ensemble_explicit. unfold P.
      cbn [velocities positions farrs iarrs source].
      split; [lia|]. split; [lia|]. split; [|split; [|done]].
      + intros a Ha. by rewrite lookup_app_l.
      + intros a Ha. by rewrite lookup_app_l. }
  destruct (run_from_init n ts dt w) as [st w'].
  destruct Hres as (_ & _ & Hfa & Hia & Hsrc). done.
Qed.

(** X15: the two history lists hold references, not copies. After a run
    every entry of [positions_to_avg] reads as the positions array in its
    final state, and likewise for the velocities: the per-step history of a
    run consists of equal arrays. *)
Theorem run_history_reads_final_arrays n ts dt w :
  let '(st, w') := run_from_init n ts dt w in
  map (fun l => farrs w' !!! l) (positions_to_avg st)
  = replicate (length ts) (farrs w' !!! positions st) /\
  map (fun l => farrs w' !!! l) (velocities_to_avg st)
  = replicate (length ts) (farrs w' !!! velocities st).
Proof.
  assert (H := run_from_init_shape n ts dt w).
  destruct (run_from_init n ts dt w) as [st w'].
  destruct H as (_ & _ & _ & _ & Hpa & Hva & _).
  rewrite Hpa, Hva. by rewrite !fmap_replicate.
Qed.

Lemma mot_step_rng n dt st w :
  shape_ok n st w ->
  rng (snd (mot_step dt st w)) = (rng w + (10 * n + 2))%nat.
Proof.
  intros (Hv & Hp & Hl & Hlv & Hlp & Hll & Hr).
  rewrite mot_step_eq by done. cbv zeta. cbn [snd rng].
  set (I := P_laser * _ / _).
  set (vp := zip (farrs w !!! velocities st) (farrs w !!! positions st)).
  set (forces := fst (step_forces I vp (advance 1 w))).
  assert (Hvp : length vp = n).
  { unfold vp. rewrite length_zip_with. lia. }
  assert (Hf : length forces = n).
  { unfold forces. by rewrite (proj2 (step_forces_eq I vp (advance 1 w))). }
  destruct (euler_farrs_shape n dt st (farrs w) forces)
    as (Hfa & Hfav & Hfap); try done.
  set (lv1 := repumper_result _ _ _ _ _ _).
  assert (Hlv1 : length lv1 = n).
  { unfold lv1. rewrite length_repumper_result; rewrite ?length_draws; lia. }
  rewrite Hlv1, Hvp, Hll. lia.
Qed.

Lemma run_draw_count_aux n ts dt w :
  let '(st, w') := run_from_init n ts dt w in
  rng w' = (rng w + 3 * n + length ts * (10 * n + 2))%nat.
Proof.
  pose (P := fun (st : run_locals) (w1 : world) =>
    rng w1 = (rng w + 3 * n + length (temperatures st) * (10 * n + 2))%nat).
  assert (H := run_from_init_invariant n dt P w).
  assert (Hshape := run_from_init_shape n ts dt w).
  assert (Hres : let '(st, w') := run_from_init n ts dt w in P st w').
  { apply H.
    - intros st w1 Hs HP.
      assert (Hrng := mot_step_rng n dt st w1 Hs).
      assert (H1 := mot_step_shape n dt st w1 Hs).
      destruct (mot_step dt st w1) as [st' w'].
      destruct H1 as (_ & _ & _ & _ & Ht & _). unfold P in *.
      cbn [snd] in Hrng. rewrite Hrng, Ht, HP, length_app. cbn [length]. lia.
    - rewrite init_ensemble_explicit. unfold P. cbn [temperatures rng length].
      lia. }
  destruct (run_from_init n ts dt w) as [st w'].
  destruct Hshape as (_ & _ & _ & Htl & _).
  unfold P in Hres. by rewrite Htl in Hres.
Qed.

Lemma run_temperatures_nonnegative_aux n ts dt w :
  let '(st, w') := run_from_init n ts dt w in
  length (temperatures st) = length ts /\
  Forall (fun T => 0 <= T) (temperatures st).
Proof.
  pose (P := fun (st : run_locals) (w1 : world) =>
    Forall (fun T => 0 <= T) (temperatures st)).
  assert (H := run_from_init_invariant n dt P w).
  assert (Hshape := run_from_init_shape n ts dt w).
  assert (Hres : let '(st, w') := run_from_init n ts dt w in P st w').
  { apply H.
    - intros st w1 Hs HP.
      assert (H1 := mot_step_shape n dt st w1 Hs).
      destruct (mot_step dt st w1) as [st' w'].
      destruct H1 as (_ & _ & _ & _ & Ht & _). unfold P in *. rewrite Ht.
      apply Forall_app. split; [done|]. constructor; [|done].
      apply trapped_temperature_spec.
    - rewrite init_ensemble_explicit. unfold P. cbn [temperatures]. done. }
  destruct (run_from_init n ts dt w) as [st w'].
  destruct Hshape as (_ & _ & _ & Htl & _). done.
Qed.

Lemma run_level_velocities_last_nan_aux n ts dt w :
  let '(st, w') := run_from_init n ts dt w in
  length (velocity_distributions st) = length ts /\
  Forall (fun d => length d = 4%nat /\ d !! 3%nat = Some NaN)
    (velocity_distributions st).
Proof.
  pose (P := fun (st : run_locals) (w1 : world) =>
    Forall (fun d : list float64 => length d = 4%nat /\ d !! 3%nat = Some NaN)
      (velocity_distributions st)).
  assert (H := run_from_init_invariant n dt P w).
  assert (Hshape := run_from_init_shape n ts dt w).
  assert (Hres : let '(st, w') := run_from_init n ts dt w in P st w').
  { apply H.
    - intros st w1 (Hv & Hp & Hl & Hlv & Hlp & Hll & Hr) HP.
      rewrite mot_step_eq by done. cbv zeta. unfold P in *.
      cbn [velocity_distributions].
      apply Forall_app. split; [done|]. constructor; [|done].
      split; [done|]. by apply level_velocities_last_nan.
    - rewrite init_ensemble_explicit. unfold P.
      cbn [velocity_distributions]. done. }
  destruct (run_from_init n ts dt w) as [st w'].
  destruct Hshape as (_ & _ & _ & _ & _ & _ & Hvd & _). done.
Qed.

(** ** The whole simulation, continued *)

Lemma np_arange_nonempty time_max dt :
  0 < time_max / dt -> (0 < length (np_arange 0 time_max dt))%nat.
Proof.
  intros Hpos. rewrite length_np_arange, Rminus_0_r.
  destruct (Zceil_bound (time_max / dt)) as [_ Hhi].
  assert (Hlt : (0 < Zceil (time_max / dt))%Z) by (apply lt_IZR; lra).
  lia.
Qed.

Lemma simulate_runs_fold n_atoms time_max dt (Q : run_lists -> world -> Prop) :
  dt <> 0 -> (0 <= n_atoms)%Z ->
  (forall acc w, Q acc w ->
     let ts := np_arange 0 time_max dt in
     let '(st, w1) := run_from_init (Z.to_nat n_atoms) ts dt w in
     Q (mkLists ts
          (positions_all acc ++ [positions_to_avg st])
          (velocities_all acc ++ [velocities_to_avg st])
          (temperatures_all acc ++ [temperatures st])
          (velocity_distributions_all acc ++ [velocity_distributions st])
          (level_populations_all acc ++ [levels_distributions st])) w1) ->
  forall n acc w acc' w',
  Q acc w -> simulate_runs n n_atoms time_max dt acc w = Ok acc' w' ->
  Q acc' w'.
Proof.
  intros Hdt Hn Hstep. induction n as [|n IH]; intros acc w acc' w' HQ Heq.
  - cbn in Heq. by injection Heq as <- <-.
  - cbn [simulate_runs] in Heq. rewrite run_once_eq in Heq by done.
    assert (H1 := Hstep acc w HQ). cbv zeta in H1.
    destruct (run_from_init _ _ _ _) as [st w1]. cbn [fst snd] in Heq.
    by apply (IH _ _ _ _ H1 Heq).
Qed.

Lemma simulate_mot_ok_valid n_atoms time_max dt n_simulations w out w' :
  simulate_mot n_atoms time_max dt n_simulations w = Ok out w' ->
  (0 < n_simulations)%Z /\ dt <> 0 /\ (0 <= n_atoms)%Z /\ 0 < time_max / dt.
Proof.
  intros Hok.
  destruct (Z_le_gt_dec n_simulations 0) as [Hsim|Hsim].
  { by rewrite simulate_mot_no_runs in Hok. }
  destruct (Req_dec_T dt 0) as [->|Hdt].
  { by rewrite simulate_mot_zero_dt in Hok by lia. }
  destruct (Z_lt_ge_dec n_atoms 0) as [Hneg|Hnat].
  { by rewrite simulate_mot_negative_atoms in Hok by (done || lia). }
  destruct (Rle_lt_dec (time_max / dt) 0) as [Hle|Hlt].
  { by rewrite simulate_mot_no_steps in Hok by (done || lia). }
  repeat split; done || lia.
Qed.

Lemma simulate_mot_valid_ok n_atoms time_max dt n_simulations w :
  (0 < n_simulations)%Z -> dt <> 0 -> (0 <= n_atoms)%Z ->
  0 < time_max / dt ->
  exists out w', simulate_mot n_atoms time_max dt n_simulations w = Ok out w'.
Proof.
  intros Hsim Hdt Hnat Hpos.
  destruct (simulate_mot_ok n_atoms time_max dt n_simulations w)
    as (acc & w' & _ & Hok & _); try done.
  - by apply np_arange_nonempty.
  - eauto.
Qed.

(** X16: which configurations are accepted. [simulate_mot] returns an
    output exactly when n_simulations > 0, dt <> 0, n_atoms >= 0 and
    time_max / dt > 0; n_atoms = 0 is accepted, and so are a negative
    time_max with a negative dt. *)
Theorem simulate_mot_returns_iff n_atoms time_max dt n_simulations w :
  (exists out w', simulate_mot n_atoms time_max dt n_simulations w = Ok out w')
  <-> (0 < n_simulations)%Z /\ dt <> 0 /\ (0 <= n_atoms)%Z
      /\ 0 < time_max / dt.
Proof.
  split.
  - intros (out & w' & Hok). by apply (simulate_mot_ok_valid _ _ _ _ _ _ _ Hok).
  - intros (Hsim & Hdt & Hnat & Hpos). by apply simulate_mot_valid_ok.
Qed.

Lemma Rsum_replicate m (a : R) : foldr Rplus 0 (replicate m a) = INR m * a.
Proof.
  induction m as [|m IH]; [cbn; lra|].
  cbn [replicate foldr]. rewrite IH, S_INR. lra.
Qed.

Lemma np_mean_axis0_2d_replicate m (x : list R) :
  np_mean_axis0_2d (replicate (S m) x) = x.
Proof.
  unfold np_mean_axis0_2d, amean, column. cbn [replicate ncols].
  rewrite <- (tabulate_lookup_total x) at 2.
  apply map_ext. intros j.
  change (x :: replicate m x) with (replicate (S m) x).
  rewrite fmap_replicate, length_replicate.
  change (foldr aadd azero (replicate (S m) (x !!! j)))
    with (foldr Rplus 0 (replicate (S m) (x !!! j))).
  rewrite Rsum_replicate. cbn [adivn Arith_R].
  assert (Hm : 0 < INR (S m)) by (apply lt_0_INR; lia).
  field. lra.
Qed.

Lemma simulate_mot_valid n_atoms time_max dt n_simulations w :
  (0 < n_simulations)%Z -> dt <> 0 -> (0 <= n_atoms)%Z ->
  0 < time_max / dt ->
  let ts := np_arange 0 time_max dt in
  let n := Z.to_nat n_simulations in
  exists acc w',
    simulate_runs n n_atoms time_max dt no_runs w = Ok acc w' /\
    simulate_mot n_atoms time_max dt n_simulations w
    = Ok (mkOutput ts
            (np_mean_axis1_3d (deref w' (positions_all acc)))
            (np_mean_axis1_3d (deref w' (velocities_all acc)))
            (np_mean_axis0_2d (temperatures_all acc))
            (np_mean_axis0_3d (level_populations_all acc))
            (np_mean_axis0_3d (velocity_distributions_all acc))) w' /\
    positions_all acc
    = map (fun r => replicate (length ts) (length (farrs w) + 2 * r + 1)%nat)
          (seq 0 n) /\
    velocities_all acc
    = map (fun r => replicate (length ts) (length (farrs w) + 2 * r)%nat)
          (seq 0 n) /\
    (length (temperatures_all acc) = n /\
     Forall (fun t => length t = length ts) (temperatures_all acc)) /\
    (length (level_populations_all acc) = n /\
     Forall (fun t => length t = length ts) (level_populations_all acc)) /\
    (length (velocity_distributions_all acc) = n /\
     Forall (fun t => length t = length ts) (velocity_distributions_all acc)) /\
    (0 < n)%nat /\ (0 < length ts)%nat.
Proof.
  intros Hsim Hdt Hnat Hpos ts n.
  assert (Hsteps := np_arange_nonempty time_max dt Hpos).
  destruct (simulate_mot_ok n_atoms time_max dt n_simulations w)
    as (acc & w' & Hruns & Hok & Hpa & Hva & _); try done.
  destruct (simulate_runs_ok n_atoms time_max dt n Hdt Hnat no_runs w)
    as (acc2 & w2 & Hruns2 & _ & _ & (tl & Htl1 & Htl2 & Htl3)
        & (pl & Hpl1 & Hpl2 & Hpl3) & (vl & Hvl1 & Hvl2 & Hvl3) & _).
  fold n in Hruns. rewrite Hruns in Hruns2. injection Hruns2 as <- <-.
  cbn [temperatures_all level_populations_all velocity_distributions_all
       no_runs app] in *.
  exists acc, w'. rewrite Htl1, Hpl1, Hvl1 in *.
  repeat split; try done. unfold n. lia.
Qed.

(** X17: the shape of the output of an accepted configuration. The time
    grid, the averaged temperatures, the averaged level populations and the
    averaged per-level velocities have one entry per time step,
    ceil(time_max / dt) of them; the averaged positions and velocities have
    one row per simulation. *)
Theorem simulate_mot_output_shape n_atoms time_max dt n_simulations w out w' :
  simulate_mot n_atoms time_max dt n_simulations w = Ok out w' ->
  let steps := Z.to_nat (Zceil (time_max / dt)) in
  length (times out) = steps /\
  length (avg_temperatures out) = steps /\
  length (avg_level_populations out) = steps /\
  length (avg_velocity_distributions out) = steps /\
  length (avg_positions out) = Z.to_nat n_simulations /\
  length (avg_velocities out) = Z.to_nat n_simulations.
Proof.
  intros Hok steps.
  destruct (simulate_mot_ok_valid _ _ _ _ _ _ _ Hok)
    as (Hsim & Hdt & Hnat & Hpos).
  destruct (simulate_mot_valid n_atoms time_max dt n_simulations w)
    as (acc & w2 & _ & Hok2 & Hpa & Hva & (Htl & Htf) & (Hpl & Hpf)
        & (Hvl & Hvf) & Hn & Hs); try done.
  rewrite Hok in Hok2. injection Hok2 as -> ->.
  cbn [times avg_temperatures avg_level_populations
       avg_velocity_distributions avg_positions avg_velocities].
  assert (Hsteps : length (np_arange 0 time_max dt) = steps).
  { rewrite length_np_arange. unfold steps. by rewrite Rminus_0_r. }
  rewrite Hsteps in *.
  unfold np_mean_axis1_3d, deref, np_mean_axis0_3d.
  rewrite length_np_mean_axis0_2d, !length_map, !length_seq, Hpa, Hva,
    !length_map, !length_seq.
  repeat split; try done.
  - destruct (temperatures_all acc) as [|t tl]; [cbn in Htl; lia|].
    cbn. by inversion Htf.
  - destruct (level_populations_all acc) as [|t tl]; [cbn in Hpl; lia|].
    cbn. by inversion Hpf.
  - destruct (velocity_distributions_all acc) as [|t tl]; [cbn in Hvl; lia|].
    cbn. by inversion Hvf.
Qed.

Lemma simulate_mot_output_shape_witness :
  exists out w',
    simulate_mot 1 2 1 1 (constant_world 0) = Ok out w' /\
    length (times out) = Z.to_nat (Zceil (2 / 1)) /\
    length (avg_temperatures out) = Z.to_nat (Zceil (2 / 1)) /\
    length (avg_level_populations out) = Z.to_nat (Zceil (2 / 1)) /\
    length (avg_velocity_distributions out) = Z.to_nat (Zceil (2 / 1)) /\
    length (avg_positions out) = Z.to_nat 1 /\
    length (avg_velocities out) = Z.to_nat 1.
Proof.
  destruct (simulate_mot_valid_ok 1 2 1 1 (constant_world 0)) as (out & w' & Hok);
    [lia | lra | lia | lra |].
  exists out, w'. split; [exact Hok|].
  exact (simulate_mot_output_shape 1 2 1 1 (constant_world 0) out w' Hok).
Defined.

(** X18: what the averaged positions and velocities really are. For an
    accepted configuration row r of [avg_positions] is the positions array
    of run r as the store holds it at the end of the simulation, that is
    the final positions of run r, and row r of [avg_velocities] is its
    final velocities array: nothing is averaged over the runs. *)
Theorem simulate_mot_positions_are_final_arrays
    n_atoms time_max dt n_simulations w out w' :
  simulate_mot n_atoms time_max dt n_simulations w = Ok out w' ->
  avg_positions out
  = map (fun r => farrs w' !!! (length (farrs w) + 2 * r + 1)%nat)
        (seq 0 (Z.to_nat n_simulations)) /\
  avg_velocities out
  = map (fun r => farrs w' !!! (length (farrs w) + 2 * r)%nat)
        (seq 0 (Z.to_nat n_simulations)).
Proof.
  intros Hok.
  destruct (simulate_mot_ok_valid _ _ _ _ _ _ _ Hok)
    as (Hsim & Hdt & Hnat & Hpos).
  destruct (simulate_mot_valid n_atoms time_max dt n_simulations w)
    as (acc & w2 & _ & Hok2 & Hpa & Hva & _ & _ & _ & Hn & Hs); try done.
  rewrite Hok in Hok2. injection Hok2 as -> ->.
  cbn [avg_positions avg_velocities].
  unfold np_mean_axis1_3d, deref. rewrite Hpa, Hva, !map_map.
  destruct (length (np_arange 0 time_max dt)) as [|m]; [lia|].
  split; apply map_ext; intros r;
    by rewrite fmap_replicate, np_mean_axis0_2d_replicate.
Qed.

Lemma simulate_mot_positions_are_final_arrays_witness :
  exists out w',
    simulate_mot 1 2 1 3 (constant_world 0) = Ok out w' /\
    avg_positions out
    = map (fun r => farrs w' !!! (length (farrs (constant_world 0)) + 2 * r + 1)%nat)
          (seq 0 (Z.to_nat 3)) /\
    avg_velocities out
    = map (fun r => farrs w' !!! (length (farrs (constant_world 0)) + 2 * r)%nat)
          (seq 0 (Z.to_nat 3)).
Proof.
  destruct (simulate_mot_valid_ok 1 2 1 3 (constant_world 0)) as (out & w' & Hok);
    [lia | lra | lia | lra |].
  exists out, w'. split; [exact Hok|].
  exact (simulate_mot_positions_are_final_arrays 1 2 1 3 (constant_world 0) out w' Hok).
Defined.

(** ** The averaged series *)

Lemma amean_nonneg (xs : list R) :
  Forall (fun x => 0 <= x) xs -> 0 <= amean xs.
Proof.
  intros Hx. unfold amean. cbn [adivn aadd azero Arith_R].
  destruct xs as [|x xs]; [cbn; lra|].
  apply Rmult_le_pos; [by apply (Rsum_nonneg (x :: xs))|].
  left. apply Rinv_0_lt_compat, lt_0_INR. cbn. lia.
Qed.

Lemma lookup_total_nonneg (r : list R) j :
  Forall (fun x => 0 <= x) r -> 0 <= r !!! j.
Proof.
  intros Hr. rewrite list_lookup_total_alt.
  destruct (r !! j) as [x|] eqn:Hx; cbn; [|lra].
  apply (proj1 (Forall_lookup _ _) Hr j x Hx).
Qed.

(** X19: every averaged temperature of an accepted configuration is
    non-negative. *)
Theorem simulate_mot_avg_temperatures_nonneg
    n_atoms time_max dt n_simulations w out w' :
  simulate_mot n_atoms time_max dt n_simulations w = Ok out w' ->
  Forall (fun T => 0 <= T) (avg_temperatures out).
Proof.
  intros Hok.
  destruct (simulate_mot_ok_valid _ _ _ _ _ _ _ Hok)
    as (Hsim & Hdt & Hnat & Hpos).
  destruct (simulate_mot_valid n_atoms time_max dt n_simulations w)
    as (acc & w2 & Hruns & Hok2 & _); try done.
  rewrite Hok in Hok2. injection Hok2 as -> ->. cbn [avg_temperatures].
  assert (Hall : Forall (Forall (fun T => 0 <= T)) (temperatures_all acc)).
  { apply (simulate_runs_fold n_atoms time_max dt
             (fun acc _ => Forall (Forall (fun T => 0 <= T))
                             (temperatures_all acc)) Hdt Hnat)
      with (n := Z.to_nat n_simulations) (acc := no_runs) (w := w) (w' := w2);
      [| by cbn | done].
    intros acc0 w0 HQ. cbv zeta.
    assert (H := run_temperatures_nonnegative_aux (Z.to_nat n_atoms)
                   (np_arange 0 time_max dt) dt w0).
    destruct (run_from_init _ _ _ _) as [st w1]. cbn [temperatures_all].
    apply Forall_app. split; [done|]. constructor; [apply H | done]. }
  unfold np_mean_axis0_2d. apply Forall_fmap, Forall_true. intros j.
  unfold compose. apply amean_nonneg. unfold column.
  apply Forall_fmap. eapply Forall_impl; [exact Hall|].
  intros r Hr. by apply lookup_total_nonneg.
Qed.

Lemma simulate_mot_avg_temperatures_nonneg_witness :
  exists out w',
    simulate_mot 2 2 1 3 (constant_world 0) = Ok out w' /\
    Forall (fun T => 0 <= T) (avg_temperatures out).
Proof.
  destruct (simulate_mot_valid_ok 2 2 1 3 (constant_world 0))
    as (out & w' & Hok); [lia | lra | lia | lra |].
  exists out, w'. split; [exact Hok|].
  exact (simulate_mot_avg_temperatures_nonneg 2 2 1 3 (constant_world 0)
           out w' Hok).
Defined.

Lemma amean_all_nan (xs : list float64) :
  xs <> [] -> Forall (fun x => x = NaN) xs -> amean xs = NaN.
Proof.
  intros Hne Hx. destruct xs as [|x xs]; [done|].
  inversion Hx as [|? ? -> _]; subst. reflexivity.
Qed.

(** X20: the fourth averaged per-level velocity is NaN at every time
    step: the averaged output carries no velocity for its last level at
    all. *)
Theorem simulate_mot_last_level_velocity_nan
    n_atoms time_max dt n_simulations w out w' :
  simulate_mot n_atoms time_max dt n_simulations w = Ok out w' ->
  Forall (fun d => d !! 3%nat = Some NaN) (avg_velocity_distributions out).
Proof.
  intros Hok.
  destruct (simulate_mot_ok_valid _ _ _ _ _ _ _ Hok)
    as (Hsim & Hdt & Hnat & Hpos).
  destruct (simulate_mot_valid n_atoms time_max dt n_simulations w)
    as (acc & w2 & Hruns & Hok2 & _ & _ & _ & _ & (Hvl & Hvf) & Hn & Hs);
    try done.
  rewrite Hok in Hok2. injection Hok2 as -> ->.
  cbn [avg_velocity_distributions].
  set (good := fun d : list float64 => length d = 4%nat /\ d !! 3%nat = Some NaN).
  assert (Hall : Forall (Forall good) (velocity_distributions_all acc)).
  { apply (simulate_runs_fold n_atoms time_max dt
             (fun acc _ => Forall (Forall good)
                             (velocity_distributions_all acc)) Hdt Hnat)
      with (n := Z.to_nat n_simulations) (acc := no_runs) (w := w) (w' := w2);
      [| by cbn | done].
    intros acc0 w0 HQ. cbv zeta.
    assert (H := run_level_velocities_last_nan_aux (Z.to_nat n_atoms)
                   (np_arange 0 time_max dt) dt w0).
    destruct (run_from_init _ _ _ _) as [st w1].
    cbn [velocity_distributions_all].
    apply Forall_app. split; [done|]. constructor; [apply H | done]. }
  set (vl := velocity_distributions_all acc) in *.
  set (steps := length (np_arange 0 time_max dt)) in *.
  assert (Hcols : ncols vl = steps).
  { destruct vl as [|v vl']; [cbn in Hvl; lia|]. cbn. by inversion Hvf. }
  unfold np_mean_axis0_3d. rewrite Hcols.
  apply Forall_fmap, Forall_forall. intros t Ht%elem_of_seq. unfold compose.
  set (rows := column t vl).
  assert (Hrows : Forall good rows).
  { unfold rows, column. apply Forall_fmap.
    apply Forall_forall. intros vd Hvd. unfold compose.
    assert (Hlen : length vd = steps)
      by apply (proj1 (Forall_forall _ _) Hvf vd Hvd).
    assert (Hgood : Forall good vd)
      by apply (proj1 (Forall_forall _ _) Hall vd Hvd).
    destruct (lookup_lt_is_Some_2 vd t) as [d Hd]; [lia|].
    rewrite (list_lookup_total_correct vd t d) by done.
    apply (proj1 (Forall_lookup _ _) Hgood t d Hd). }
  assert (Hrne : rows <> []).
  { unfold rows, column. destruct vl as [|v vl']; [cbn in Hvl; lia|]. done. }
  assert (Hc4 : ncols rows = 4%nat).
  { destruct rows as [|r0 rows']; [done|]. cbn.
    by inversion Hrows as [|? ? [H4 _] _]. }
  unfold np_mean_axis0_2d. rewrite Hc4.
  rewrite list_lookup_fmap, lookup_seq_lt by lia. cbn [fmap option_fmap option_map].
  f_equal. apply amean_all_nan.
  - unfold column. destruct rows; [done|]. done.
  - unfold column. apply Forall_fmap. eapply Forall_impl; [exact Hrows|].
    intros r [_ H3]. unfold compose.
    by rewrite (list_lookup_total_correct r 3 NaN).
Qed.

Lemma simulate_mot_last_level_velocity_nan_witness :
  exists out w',
    simulate_mot 2 2 1 3 (constant_world 0) = Ok out w' /\
    Forall (fun d => d !! 3%nat = Some NaN) (avg_velocity_distributions out).
Proof.
  destruct (simulate_mot_valid_ok 2 2 1 3 (constant_world 0))
    as (out & w' & Hok); [lia | lra | lia | lra |].
  exists out, w'. split; [exact Hok|].
  exact (simulate_mot_last_level_velocity_nan 2 2 1 3 (constant_world 0)
           out w' Hok).
Defined.

(** X21: the number of draws a whole simulation consumes: each of the
    n_simulations runs takes 3 n draws to start and 10 n + 2 draws in each
    of its ceil(time_max / dt) time steps, n being the number of atoms. *)
Theorem simulate_mot_draw_count n_atoms time_max dt n_simulations w out w' :
  simulate_mot n_atoms time_max dt n_simulations w = Ok out w' ->
  let n := Z.to_nat n_atoms in
  let steps := Z.to_nat (Zceil (time_max / dt)) in
  rng w' = (rng w + Z.to_nat n_simulations * (3 * n + steps * (10 * n + 2)))%nat.
Proof.
  intros Hok n steps.
  destruct (simulate_mot_ok_valid _ _ _ _ _ _ _ Hok)
    as (Hsim & Hdt & Hnat & Hpos).
  destruct (simulate_mot_valid n_atoms time_max dt n_simulations w)
    as (acc & w2 & Hruns & Hok2 & _ & _ & (Htl & _) & _); try done.
  rewrite Hok in Hok2. injection Hok2 as _ <-.
  assert (Hsteps : length (np_arange 0 time_max dt) = steps).
  { rewrite length_np_arange. unfold steps. by rewrite Rminus_0_r. }
  assert (Hcount : rng w' = (rng w + length (temperatures_all acc)
                                      * (3 * n + steps * (10 * n + 2)))%nat).
  { apply (simulate_runs_fold n_atoms time_max dt
             (fun acc w1 => rng w1 = (rng w + length (temperatures_all acc)
                                      * (3 * n + steps * (10 * n + 2)))%nat)
             Hdt Hnat)
      with (n := Z.to_nat n_simulations) (acc := no_runs) (w := w);
      [| cbn; lia | done].
    intros acc0 w0 HQ. cbv zeta.
    assert (H := run_draw_count_aux n (np_arange 0 time_max dt) dt w0).
    fold n. destruct (run_from_init _ _ _ _) as [st w1].
    cbn [temperatures_all]. rewrite length_app, H, HQ, Hsteps. cbn [length].
    lia. }
  by rewrite Hcount, Htl.
Qed.

Lemma simulate_mot_draw_count_witness :
  exists out w',
    simulate_mot 2 2 1 3 (constant_world 0) = Ok out w' /\
    rng w' = (rng (constant_world 0)
              + Z.to_nat 3 * (3 * Z.to_nat 2
                              + Z.to_nat (Zceil (2 / 1))
                                * (10 * Z.to_nat 2 + 2)))%nat.
Proof.
  destruct (simulate_mot_valid_ok 2 2 1 3 (constant_world 0))
    as (out & w' & Hok); [lia | lra | lia | lra |].
  exists out, w'. split; [exact Hok|].
  exact (simulate_mot_draw_count 2 2 1 3 (constant_world 0) out w' Hok).
Defined.

(** ** An ensemble without atoms *)

Lemma mot_step_no_atoms dt st w :
  shape_ok 0 st w ->
  let '(st', w') := mot_step dt st w in
  temperatures st' = temperatures st ++ [0] /\
  velocity_distributions st'
  = velocity_distributions st ++ [[NaN; NaN; NaN; NaN]] /\
  levels_distributions st'
  = levels_distributions st ++ [[NaN; NaN; NaN; NaN]].
Proof.
  intros Hs. assert (Hs' := Hs).
  destruct Hs' as (Hv & Hp & Hl & Hlv & Hlp & Hll & Hr).
  rewrite mot_step_eq by done. cbv zeta.
  cbn [temperatures velocity_distributions levels_distributions].
  set (I := P_laser * _ / _).
  set (vp := zip (farrs w !!! velocities st) (farrs w !!! positions st)).
  set (forces := fst (step_forces I vp (advance 1 w))).
  assert (Hvp : length vp = 0%nat).
  { unfold vp. rewrite length_zip_with. lia. }
  assert (Hf : length forces = 0%nat).
  { unfold forces. by rewrite (proj2 (step_forces_eq I vp (advance 1 w))). }
  destruct (euler_farrs_shape 0 dt st (farrs w) forces)
    as (Hfa & Hfav & Hfap); try done.
  apply nil_length_inv in Hfav, Hfap, Hll. rewrite Hfav, Hfap, Hll.
  repeat split; reflexivity.
Qed.

(** X22: an ensemble of zero atoms, which [simulate_mot] accepts, yields a
    degenerate record: every recorded temperature is exactly 0, and every
    recorded level-population vector and per-level velocity vector is four
    NaNs. *)
Theorem run_without_atoms ts dt w :
  let '(st, w') := run_from_init 0 ts dt w in
  temperatures st = replicate (length ts) 0 /\
  velocity_distributions st = replicate (length ts) [NaN; NaN; NaN; NaN] /\
  levels_distributions st = replicate (length ts) [NaN; NaN; NaN; NaN].
Proof.
  pose (P := fun (st : run_locals) (w1 : world) =>
    temperatures st = replicate (length (temperatures st)) 0 /\
    velocity_distributions st
    = replicate (length (temperatures st)) [NaN; NaN; NaN; NaN] /\
    levels_distributions st
    = replicate (length (temperatures st)) [NaN; NaN; NaN; NaN]).
  assert (H := run_from_init_invariant 0 dt P w).
  assert (Hshape := run_from_init_shape 0 ts dt w).
  assert (Hres : let '(st, w') := run_from_init 0 ts dt w in P st w').
  { apply H.
    - intros st w1 Hs (Ht & Hvd & Hld).
      assert (H1 := mot_step_no_atoms dt st w1 Hs).
      destruct (mot_step dt st w1) as [st' w'].
      destruct H1 as (Ht' & Hvd' & Hld'). unfold P.
      rewrite Ht', Hvd', Hld', length_app. cbn [length].
      rewrite Nat.add_1_r, !replicate_S_end. repeat split; by f_equal.
    - rewrite init_ensemble_explicit. unfold P.
      cbn [temperatures velocity_distributions levels_distributions]. done. }
  destruct (run_from_init 0 ts dt w) as [st w'].
  destruct Hshape as (_ & _ & _ & Htl & _).
  unfold P in Hres. by rewrite Htl in Hres.
Qed.

(** ** The rows [plot_results] reads *)

Lemma histogram_rows_in_bounds len :
  (1 <= len)%Z -> Forall (index_in_bounds len) (histogram_rows len).
Proof.
  intros Hlen. unfold histogram_rows, index_in_bounds.
  assert (H5 : (0 <= len / 5 < len)%Z).
  { split; [apply Z.div_pos; lia | apply Z.div_lt; lia]. }
  assert (H2 : (0 <= len / 2 < len)%Z).
  { split; [apply Z.div_pos; lia | apply Z.div_lt; lia]. }
  assert (H45 : (0 <= len * 4 / 5 < len)%Z).
  { split; [apply Z.div_pos; lia|].
    apply Z.div_lt_upper_bound; lia. }
  repeat (apply List.Forall_cons; [lia|]). apply List.Forall_nil.
Qed.

(** X23: [plot_results] can always read the rows it draws from the output
    of [simulate_mot]: the five row indices 0, len // 5, len // 2,
    len * 4 // 5 and len - 1 are within bounds for the averaged positions
    and for the averaged velocities. Those arrays have one row per
    simulation, so the rows drawn are simulations, not instants. *)
Theorem plot_results_rows_in_bounds
    n_atoms time_max dt n_simulations w out w' :
  simulate_mot n_atoms time_max dt n_simulations w = Ok out w' ->
  length (avg_positions out) = Z.to_nat n_simulations /\
  Forall (index_in_bounds (Z.of_nat (length (avg_positions out))))
    (histogram_rows (Z.of_nat (length (avg_positions out)))) /\
  Forall (index_in_bounds (Z.of_nat (length (avg_velocities out))))
    (histogram_rows (Z.of_nat (length (avg_velocities out)))).
Proof.
  intros Hok.
  destruct (simulate_mot_ok_valid _ _ _ _ _ _ _ Hok)
    as (Hsim & Hdt & Hnat & Hpos).
  destruct (simulate_mot_valid n_atoms time_max dt n_simulations w)
    as (acc & w2 & _ & Hok2 & Hpa & Hva & _ & _ & _ & Hn & _); try done.
  rewrite Hok in Hok2. injection Hok2 as -> ->.
  cbn [avg_positions avg_velocities]. unfold np_mean_axis1_3d, deref.
  rewrite !length_map, Hpa, Hva, !length_map, !length_seq.
  split; [done|]. split; apply histogram_rows_in_bounds; lia.
Qed.

Lemma plot_results_rows_in_bounds_witness :
  exists out w',
    simulate_mot 2 2 1 3 (constant_world 0) = Ok out w' /\
    length (avg_positions out) = Z.to_nat 3 /\
    Forall (index_in_bounds (Z.of_nat (length (avg_positions out))))
      (histogram_rows (Z.of_nat (length (avg_positions out)))) /\
    Forall (index_in_bounds (Z.of_nat (length (avg_velocities out))))
      (histogram_rows (Z.of_nat (length (avg_velocities out)))).
Proof.
  destruct (simulate_mot_valid_ok 2 2 1 3 (constant_world 0))
    as (out & w' & Hok); [lia | lra | lia | lra |].
  exists out, w'. split; [exact Hok|].
  exact (plot_results_rows_in_bounds 2 2 1 3 (constant_world 0) out w' Hok).
Defined.
